(** * The HTTP transport of node-soap ([src/http.ts]): a shallow embedding

    The development follows the source file: JavaScript strings and values,
    the [Headers] container of the fetch API, the request builder
    ([buildRequest]), the response normaliser ([handleResponse]) with the two
    regular expressions it runs, and the callback plumbing of [request],
    [requestWrapper] and [ntlmHandshake] over an explicit world state.

    What the file takes from its libraries is modelled as those libraries
    document it: strings are sequences of UTF-16 code units; numbers are the
    integers; a [Headers] instance keeps a header list with case-insensitive
    names, apart from its properties as an object; a regular expression is
    run by a backtracking matcher that tries alternatives in the order of the
    language; a promise is a deferred computation whose reactions run in the
    order of the chain; [_.once] is a guard kept in the state.  What the host
    supplies (the package version, [url.parse], the upper-case mapping outside
    ASCII, [fetch], the NTLM library, the clock, the identifier generator) is
    a parameter. *)

From Stdlib Require Import List NArith ZArith Bool Ascii String Lia DecimalString FinFun.
Import ListNotations.

Set Implicit Arguments.
Set Warnings "-register-all".
#[local] Open Scope list_scope.

(* ================================================================== *)
(** * JavaScript strings *)
(* ================================================================== *)

(** A JavaScript string is a sequence of UTF-16 code units. *)
Definition code_unit := N.
Definition jsstring := list code_unit.

(** [str "abc"] is the JavaScript string literal ['abc'] (one code unit per
    character of the literal, all of them below 256). *)
Definition str (s : string) : jsstring := map N_of_ascii (list_ascii_of_string s).

Definition cu_eqb (a b : code_unit) : bool := N.eqb a b.

Fixpoint jsstring_eqb (a b : jsstring) : bool :=
  match a, b with
  | [], [] => true
  | x :: a', y :: b' => cu_eqb x y && jsstring_eqb a' b'
  | _, _ => false
  end.

(** [s.startsWith(p)]. *)
Fixpoint starts_with (p s : jsstring) : bool :=
  match p, s with
  | [], _ => true
  | x :: p', y :: s' => cu_eqb x y && starts_with p' s'
  | _ :: _, [] => false
  end.

(** [s.indexOf(p) > -1]. *)
Fixpoint contains (p s : jsstring) : bool :=
  starts_with p s ||
  match s with
  | [] => false
  | _ :: s' => contains p s'
  end.

(** [s.split(sep)] for a non-empty separator: [cur] is the piece being read
    (reversed), [skip] the number of separator characters still to drop. *)
Fixpoint split_from (sep cur : jsstring) (skip : nat) (s : jsstring) : list jsstring :=
  match s with
  | [] => [rev cur]
  | c :: t =>
      match skip with
      | S n => split_from sep cur n t
      | O =>
          if starts_with sep s
          then rev cur :: split_from sep [] (List.length sep - 1) t
          else split_from sep (c :: cur) 0 t
      end
  end.

Definition split (sep s : jsstring) : list jsstring := split_from sep [] 0 s.

(** [String.prototype.toLowerCase] on the ASCII range, the only range a header
    field name can use. *)
Definition ascii_lower (c : code_unit) : code_unit :=
  if (65 <=? c)%N && (c <=? 90)%N then (c + 32)%N else c.

Definition lower (s : jsstring) : jsstring := map ascii_lower s.

(** Decimal rendering of a number, as [n + ''] does for an integer. *)
Definition dec (n : N) : jsstring := str (NilZero.string_of_uint (N.to_uint n)).
Definition decZ (n : Z) : jsstring := str (NilZero.string_of_int (Z.to_int n)).

(** ** UTF-8 byte length ([Buffer.byteLength(s, 'utf8')]) *)

Definition is_high_surrogate (c : code_unit) : bool := (55296 <=? c)%N && (c <=? 56319)%N.
Definition is_low_surrogate (c : code_unit) : bool := (56320 <=? c)%N && (c <=? 57343)%N.

(** The code points a string of code units denotes: a surrogate pair is one
    supplementary code point, a lone surrogate is replaced by U+FFFD. *)
Fixpoint code_points (s : jsstring) : list N :=
  match s with
  | [] => []
  | c :: t =>
      if is_high_surrogate c then
        match t with
        | d :: t' =>
            if is_low_surrogate d
            then (65536 + (c - 55296) * 1024 + (d - 56320))%N :: code_points t'
            else 65533%N :: code_points t
        | [] => [65533%N]
        end
      else if is_low_surrogate c then 65533%N :: code_points t
      else c :: code_points t
  end.

(** The UTF-8 encoding of one code point. *)
Definition utf8_bytes (cp : N) : list N :=
  if (cp <? 128)%N then [cp]
  else if (cp <? 2048)%N then [192 + cp / 64; 128 + cp mod 64]%N
  else if (cp <? 65536)%N then [224 + cp / 4096; 128 + (cp / 64) mod 64; 128 + cp mod 64]%N
  else [240 + cp / 262144; 128 + (cp / 4096) mod 64; 128 + (cp / 64) mod 64; 128 + cp mod 64]%N.

Definition utf8_encode (s : jsstring) : list N := flat_map utf8_bytes (code_points s).

(** [Buffer.byteLength(s, 'utf8')]: the number of bytes of the encoding. *)
Definition byteLength (s : jsstring) : N := N.of_nat (List.length (utf8_encode s)).

(* ================================================================== *)
(** * JavaScript values *)
(* ================================================================== *)

(** The values that travel through the transport.  Numbers are the integers
    (the only numbers the transport computes with); a [Headers] instance
    carries its header list and, like every object, its own properties; a
    stream is opaque. *)
Inductive jsval : Type :=
| VUndefined
| VNull
| VBool (b : bool)
| VNum (n : Z)
| VStr (s : jsstring)
| VObj (props : list (jsstring * jsval))
| VArr (items : list jsval)
| VHeaders (entries : list (jsstring * jsstring)) (props : list (jsstring * jsval))
| VStream (id : nat)
| VError (name message : jsstring).

Definition jsobject := list (jsstring * jsval).

(** ToBoolean. *)
Definition truthy (v : jsval) : bool :=
  match v with
  | VUndefined | VNull => false
  | VBool b => b
  | VNum n => negb (Z.eqb n 0)
  | VStr s => match s with [] => false | _ => true end
  | _ => true
  end.

(** [typeof v === 'string']. *)
Definition is_string (v : jsval) : bool :=
  match v with VStr _ => true | _ => false end.

(** ToString, as string concatenation and template literals apply it. *)
Fixpoint to_string (v : jsval) : jsstring :=
  match v with
  | VUndefined => str "undefined"
  | VNull => str "null"
  | VBool true => str "true"
  | VBool false => str "false"
  | VNum n => decZ n
  | VStr s => s
  | VObj _ => str "[object Object]"
  | VArr items =>
      (fix join (l : list jsval) : jsstring :=
         match l with
         | [] => []
         | x :: t =>
             let e := match x with VUndefined | VNull => [] | _ => to_string x end in
             match t with [] => e | _ => e ++ str "," ++ join t end
         end) items
  | VHeaders _ _ => str "[object Headers]"
  | VStream _ => str "[object Object]"
  | VError name message =>
      match message with [] => name | _ => name ++ str ": " ++ message end
  end.

(** ** Objects as ordered property lists *)

(** [o[k]] on an own property; [None] is [undefined]. *)
Fixpoint lookup {A} (k : jsstring) (o : list (jsstring * A)) : option A :=
  match o with
  | [] => None
  | (k', v) :: o' => if jsstring_eqb k k' then Some v else lookup k o'
  end.

Definition get (o : jsobject) (k : jsstring) : jsval :=
  match lookup k o with Some v => v | None => VUndefined end.

(** [o[k] = v]: an existing property keeps its place, a new one goes last. *)
Fixpoint assign {A} (k : jsstring) (v : A) (o : list (jsstring * A)) : list (jsstring * A) :=
  match o with
  | [] => [(k, v)]
  | (k', v') :: o' =>
      if jsstring_eqb k k' then (k', v) :: o' else (k', v') :: assign k v o'
  end.

(** [o.hasOwnProperty(k)]. *)
Definition hasOwnProperty {A} (o : list (jsstring * A)) (k : jsstring) : bool :=
  match lookup k o with Some _ => true | None => false end.

(** Property read on an arbitrary value: only plain objects have the
    properties the transport asks for. *)
Definition prop (v : jsval) (k : jsstring) : jsval :=
  match v with
  | VObj o => get o k
  | _ => VUndefined
  end.

(** The keys and values a [for ... in] loop visits. *)
Definition for_in_entries (v : jsval) : list (jsstring * jsval) :=
  match v with
  | VObj o => o
  | VArr items => combine (map (fun i => dec (N.of_nat i)) (seq 0 (List.length items))) items
  | VStr s => combine (map (fun i => dec (N.of_nat i)) (seq 0 (List.length s)))
                      (map (fun c => VStr [c]) s)
  | VHeaders _ props => props
  | _ => []
  end.

(** [target[k] = v] on a value held in a property: the assignment creates or
    overwrites an own property of the target object.  On a [Headers] instance
    it is a plain property too; the header list is reached only through the
    instance's methods ([set], [append], [delete]). *)
Definition put (target : jsval) (k : jsstring) (v : jsval) : jsval :=
  match target with
  | VObj o => VObj (assign k v o)
  | VHeaders entries props => VHeaders entries (assign k v props)
  | _ => target
  end.

(** A call that returns a value or throws one. *)
Inductive result (A : Type) : Type :=
| Ok (a : A)
| Throw (e : jsval).
Arguments Ok {A} a.
Arguments Throw {A} e.

Definition TypeError (message : string) : jsval := VError (str "TypeError") (str message).
Definition Error (message : string) : jsval := VError (str "Error") (str message).

(* ================================================================== *)
(** * The [Headers] class of the fetch API *)
(* ================================================================== *)

(** The header list of a [Headers] instance: names are matched without
    regard to case, so the list keeps them in lower case.  Field names and
    values are taken to be ones the class accepts. *)
Definition header_list := list (jsstring * jsstring).

(** [headers.get(name)]; [None] is [null]. *)
Definition headers_get (name : jsstring) (h : header_list) : option jsstring :=
  lookup (lower name) h.

(** [headers.set(name, value)]: last write wins. *)
Definition headers_set (name value : jsstring) (h : header_list) : header_list :=
  assign (lower name) value h.

(** [headers.append(name, value)]. *)
Definition headers_append (name value : jsstring) (h : header_list) : header_list :=
  match headers_get name h with
  | Some old => assign (lower name) (old ++ str ", " ++ value) h
  | None => assign (lower name) value h
  end.

(** [new Headers(init)] from an object literal. *)
Definition Headers_new (init : list (jsstring * jsstring)) : header_list :=
  fold_left (fun h kv => headers_append (fst kv) (snd kv) h) init [].

(** The header list a value denotes when it is handed on as [headers]. *)
Definition header_list_of (v : jsval) : header_list :=
  match v with
  | VHeaders entries _ => entries
  | VObj o => Headers_new (map (fun kv => (fst kv, to_string (snd kv))) o)
  | _ => []
  end.

(* ================================================================== *)
(** * URLs ([url.parse]) and [parseInt] *)
(* ================================================================== *)

(** The object [url.parse] returns; an absent component is [null]. *)
Record UrlObject : Type := {
  protocol : option jsstring;
  hostname : option jsstring;
  port : option jsstring;
  pathname : option jsstring;
  search : option jsstring;
  hash : option jsstring
}.

(** White space as [parseInt] and the [\s] class see it. *)
Definition is_white_space (c : code_unit) : bool :=
  ((9 <=? c) && (c <=? 13) || (c =? 32) || (c =? 160) || (c =? 5760)
   || (8192 <=? c) && (c <=? 8202) || (c =? 8232) || (c =? 8233)
   || (c =? 8239) || (c =? 8287) || (c =? 12288) || (c =? 65279))%N.

Definition is_digit (c : code_unit) : bool := ((48 <=? c) && (c <=? 57))%N.

Fixpoint drop_while (p : code_unit -> bool) (s : jsstring) : jsstring :=
  match s with
  | c :: t => if p c then drop_while p t else s
  | [] => []
  end.

Fixpoint take_while (p : code_unit -> bool) (s : jsstring) : jsstring :=
  match s with
  | c :: t => if p c then c :: take_while p t else []
  | [] => []
  end.

Definition digits_value (ds : jsstring) : Z :=
  fold_left (fun acc d => (acc * 10 + Z.of_N (d - 48))%Z) ds 0%Z.

(** [parseInt(s, 10)]; [None] is [NaN].  The result is exact below 2^53. *)
Definition parseInt (s : jsstring) : option Z :=
  let s1 := drop_while is_white_space s in
  let '(neg, s2) :=
    match s1 with
    | c :: t =>
        if cu_eqb c 45%N then (true, t)
        else if cu_eqb c 43%N then (false, t)
        else (false, s1)
    | [] => (false, s1)
    end in
  match take_while is_digit s2 with
  | [] => None
  | ds => Some (if neg then (- digits_value ds)%Z else digits_value ds)
  end.

(** [x + ''] for a value that is a string or [null]. *)
Definition string_or_null (o : option jsstring) : jsstring :=
  match o with Some s => s | None => str "null" end.

Definition or_else (o : option jsstring) (d : jsstring) : jsstring :=
  match o with
  | Some [] | None => d
  | Some s => s
  end.

(** A reference reading of an absolute URL [scheme://host[:port][/path]...],
    as the legacy parser of Node splits it: the port is whatever digits follow
    the last colon of the authority, default or not. *)
Definition node_url_parse (rurl : jsstring) : UrlObject :=
  let scheme := take_while (fun c => negb (c =? 58)%N) rurl in
  let r := drop_while (fun c => negb (c =? 58)%N) rurl in
  if starts_with (str "://") r then
    let r1 := skipn 3 r in
    let in_authority := fun c => negb ((c =? 47) || (c =? 63) || (c =? 35))%N in
    let authority := take_while in_authority r1 in
    let r2 := drop_while in_authority r1 in
    let rdigits := take_while is_digit (rev authority) in
    let rrest := drop_while is_digit (rev authority) in
    let '(host, prt) :=
      match rrest with
      | 58%N :: h => (rev h, match rdigits with [] => None | _ => Some (rev rdigits) end)
      | _ => (authority, None)
      end in
    let pth := take_while (fun c => negb ((c =? 63) || (c =? 35))%N) r2 in
    let r3 := drop_while (fun c => negb ((c =? 63) || (c =? 35))%N) r2 in
    let qry := take_while (fun c => negb (c =? 35)%N) r3 in
    let frag := drop_while (fun c => negb (c =? 35)%N) r3 in
    {| protocol := Some (lower scheme ++ str ":");
       hostname := Some (lower host);
       port := prt;
       pathname := Some (match pth with [] => str "/" | _ => pth end);
       search := match qry with [] => None | _ => Some qry end;
       hash := match frag with [] => None | _ => Some frag end |}
  else
    {| protocol := None; hostname := None; port := None;
       pathname := Some rurl; search := None; hash := None |}.

(* ================================================================== *)
(** * Regular expressions *)
(* ================================================================== *)

(** The constructs the two patterns of [handleResponse] are written with. *)
Inductive charset : Type :=
| Any                       (* [\s\S] *)
| Space                     (* [\s] *)
| Except (c : code_unit).   (* [^c] *)

Inductive regex : Type :=
| Lits (l : jsstring)       (* a run of literal characters *)
| Seq (a b : regex)
| Opt (a : regex)           (* (?:a)? *)
| Star (cs : charset)       (* cs* , greedy *)
| StarLazy (cs : charset)   (* cs*? *)
| Group (n : nat) (a : regex)
| Backref (n : nat).        (* \n *)

Definition captures := list (nat * jsstring).

Fixpoint capture (n : nat) (c : captures) : option jsstring :=
  match c with
  | [] => None
  | (i, w) :: c' => if Nat.eqb n i then Some w else capture n c'
  end.

(** What [exec] returns on success: the text before the match, [match[0]],
    the text after it and the groups. *)
Record match_result : Type := {
  before : jsstring;
  matched : jsstring;
  after : jsstring;
  groups : captures
}.

Definition white_space_chars : list code_unit :=
  [9; 10; 11; 12; 13; 32; 160; 5760; 8192; 8193; 8194; 8195; 8196; 8197; 8198;
   8199; 8200; 8201; 8202; 8232; 8233; 8239; 8287; 12288; 65279]%N.

Definition ascii_upper (c : code_unit) : code_unit :=
  if (97 <=? c)%N && (c <=? 122)%N then (c - 32)%N else c.

Section Host.

(** What the host and the package supply: the version string of
    [package.json], the URL parser, and the upper-case mapping of the
    JavaScript engine on single code units outside ASCII ([toUpperCase c] is the
    one code unit of the upper-case form of [c], or [c] when that form is
    longer). *)
Variable VERSION : jsstring.
Variable url_parse : jsstring -> UrlObject.
Variable toUpperCase : code_unit -> code_unit.

(** Canonicalize of the regular expression semantics, for a pattern with the
    [i] flag and without the [u] flag: a character outside ASCII never folds
    onto an ASCII one. *)
Definition Canonicalize (c : code_unit) : code_unit :=
  if (c <? 128)%N then ascii_upper c
  else let cu := toUpperCase c in if (cu <? 128)%N then c else cu.

Definition canon (ignoreCase : bool) (c : code_unit) : code_unit :=
  if ignoreCase then Canonicalize c else c.

(** Membership of a character in a class, under the flag. *)
Definition charset_mem (ignoreCase : bool) (cs : charset) (x : code_unit) : bool :=
  match cs with
  | Any => true
  | Space => existsb (fun a => cu_eqb (canon ignoreCase a) (canon ignoreCase x)) white_space_chars
  | Except c => negb (cu_eqb (canon ignoreCase c) (canon ignoreCase x))
  end.

(** Match the characters [l] at the head of [s]; the result is what is left. *)
Fixpoint lits (ignoreCase : bool) (l s : jsstring) : option jsstring :=
  match l, s with
  | [], _ => Some s
  | a :: l', x :: t =>
      if cu_eqb (canon ignoreCase a) (canon ignoreCase x) then lits ignoreCase l' t else None
  | _ :: _, [] => None
  end.

(** A continuation receives what is left of the input and the groups. *)
Definition cont := jsstring -> captures -> option (jsstring * captures).

(** Greedy repetition: take one more character first, give back on failure. *)
Fixpoint star_greedy (p : code_unit -> bool) (k : cont) (s : jsstring) (c : captures)
  : option (jsstring * captures) :=
  match s with
  | x :: t =>
      if p x then
        match star_greedy p k t c with
        | Some r => Some r
        | None => k s c
        end
      else k s c
  | [] => k s c
  end.

(** Lazy repetition: try to go on first, take one more character on failure. *)
Fixpoint star_lazy (p : code_unit -> bool) (k : cont) (s : jsstring) (c : captures)
  : option (jsstring * captures) :=
  match k s c with
  | Some r => Some r
  | None =>
      match s with
      | x :: t => if p x then star_lazy p k t c else None
      | [] => None
      end
  end.

(** The backtracking matcher: [matcher i r k s c] matches [r] at the head of
    [s] and hands the rest to [k]; alternatives are tried in the order of the
    language's semantics and the first success is the answer. *)
Fixpoint matcher (ignoreCase : bool) (r : regex) (k : cont) (s : jsstring) (c : captures)
  : option (jsstring * captures) :=
  match r with
  | Lits l =>
      match lits ignoreCase l s with
      | Some s' => k s' c
      | None => None
      end
  | Seq a b => matcher ignoreCase a (fun s' c' => matcher ignoreCase b k s' c') s c
  | Opt a =>
      match matcher ignoreCase a k s c with
      | Some r => Some r
      | None => k s c
      end
  | Star cs => star_greedy (charset_mem ignoreCase cs) k s c
  | StarLazy cs => star_lazy (charset_mem ignoreCase cs) k s c
  | Group n a =>
      matcher ignoreCase a
        (fun s' c' => k s' ((n, firstn (List.length s - List.length s') s) :: c')) s c
  | Backref n =>
      match capture n c with
      | Some w =>
          match lits ignoreCase w s with
          | Some s' => k s' c
          | None => None
          end
      | None => k s c
      end
  end.

(** [re.exec(s)] from the start of [s]: the leftmost position where the
    pattern matches; [pre] is the text already passed over, reversed. *)
Fixpoint exec_from (ignoreCase : bool) (r : regex) (pre s : jsstring) : option match_result :=
  match matcher ignoreCase r (fun s' c' => Some (s', c')) s [] with
  | Some (s', c') =>
      Some {| before := rev pre;
              matched := firstn (List.length s - List.length s') s;
              after := s';
              groups := c' |}
  | None =>
      match s with
      | x :: t => exec_from ignoreCase r (x :: pre) t
      | [] => None
      end
  end.

Definition exec (ignoreCase : bool) (r : regex) (s : jsstring) : option match_result :=
  exec_from ignoreCase r [] s.

(** [s.replace(re, '')] for a pattern without the [g] flag: the first match
    is cut out, later ones stay. *)
Definition replace_first_empty (ignoreCase : bool) (r : regex) (s : jsstring) : jsstring :=
  match exec ignoreCase r s with
  | Some m => before m ++ after m
  | None => s
  end.

(** The comment pattern, without flags:  <!-- [\s\S]*? -->  *)
Definition comment_re : regex :=
  Seq (Lits (str "<!--")) (Seq (StarLazy Any) (Lits (str "-->"))).

(** The envelope pattern, with the [i] flag.  Written with blanks between
    its pieces it reads
      (?: <\? [^?]* \?> [\s]* )?  < ( [^:]* ) :Envelope ( [\S\s]* ) <\/ \1 :Envelope>
    that is: an optional declaration, then the element: the open tag whose
    prefix is group 1, anything (group 2), and the close tag with the prefix
    of group 1. *)
Definition declaration_re : regex :=
  Seq (Lits (str "<?"))
 (Seq (Star (Except 63%N))
 (Seq (Lits (str "?>"))
      (Star Space))).

Definition element_re : regex :=
  Seq (Lits (str "<"))
 (Seq (Group 1 (Star (Except 58%N)))
 (Seq (Lits (str ":Envelope"))
 (Seq (Group 2 (Star Any))
 (Seq (Lits (str "</"))
 (Seq (Backref 1)
      (Lits (str ":Envelope>"))))))).

Definition envelope_re : regex := Seq (Opt declaration_re) element_re.

(* ================================================================== *)
(** * [HttpClient.buildRequest] *)
(* ================================================================== *)

Definition dq : jsstring := [34%N].

(** [exoptions.attachments || []]; the option is an array when it is there
    (its declared type is [IAttachment[]]). *)
Definition attachments_of (exoptions : jsobject) : list jsval :=
  match get exoptions (str "attachments") with
  | VArr items => items
  | _ => []
  end.

(** [_.omit(o, keys)]. *)
Definition omit (keys : list jsstring) (o : jsobject) : jsobject :=
  filter (fun kv => negb (existsb (jsstring_eqb (fst kv)) keys)) o.

(** The header set [buildRequest] starts from. *)
Definition base_headers (exoptions : jsobject) (curl : UrlObject) : header_list :=
  let host := hostname curl in
  let port := match port curl with Some p => parseInt p | None => None end in
  Headers_new
    [ (str "User-Agent", str "node-soap/" ++ VERSION);
      (str "Accept", str "text/html,application/xhtml+xml,application/xml,text/xml;q=0.9,*/*;q=0.8");
      (str "Accept-Encoding", str "none");
      (str "Accept-Charset", str "utf-8");
      (str "Connection",
        if truthy (get exoptions (str "forever")) then str "keep-alive" else str "close");
      (str "Host",
        string_or_null host ++ match port with None => [] | Some p => str ":" ++ decZ p end) ].

(** The part of the multipart body that carries one attachment. *)
Definition attachment_part (attachment : jsval) : jsval :=
  VObj [ (str "Content-Type", prop attachment (str "mimetype"));
         (str "Content-Transfer-Encoding", VStr (str "binary"));
         (str "Content-ID", VStr (str "<" ++ to_string (prop attachment (str "contentId")) ++ str ">"));
         (str "Content-Disposition",
           VStr (str "attachment; filename=" ++ dq ++ to_string (prop attachment (str "name")) ++ dq));
         (str "body", prop attachment (str "body")) ].

(** The [action] parameter of a content type: the last of its [; ]-separated
    pieces that mentions [action]. *)
Definition action_of (contentType : jsstring) : option jsstring :=
  if contains (str "action") contentType
  then fold_left (fun action ct => if contains (str "action") ct then Some ct else action)
                 (split (str "; ") contentType) None
  else None.

(** One round of the loop that copies the extra options onto the request:
    a key of [mergeOptions] is merged property by property into what the
    request already holds under that key, any other key is assigned. *)
Definition merge_step (mergeOptions : list jsstring) (exoptions options : jsobject)
    (kv : jsstring * jsval) : jsobject :=
  let attr := fst kv in
  if existsb (jsstring_eqb attr) mergeOptions
  then fold_left
         (fun options hv => assign attr (put (get options attr) (fst hv) (snd hv)) options)
         (for_in_entries (get exoptions attr)) options
  else assign attr (get exoptions attr) options.

Definition merge_exoptions (mergeOptions : list jsstring) (exoptions options : jsobject) : jsobject :=
  fold_left (merge_step mergeOptions exoptions) (omit [str "attachments"] exoptions) options.

(** The loop over the extra headers. *)
Definition apply_exheaders (exheaders : jsobject) (headers : header_list) : header_list :=
  fold_left (fun h kv => headers_set (fst kv) (to_string (snd kv)) h) exheaders headers.

(** [buildRequest(rurl, data, exheaders, exoptions)].  [uuid i] is what the
    [i]-th call of the identifier generator returns; an absent [exheaders] or
    [exoptions] is the empty object.  The [headers] property of the request
    is the very [Headers] instance the function goes on writing to, so the
    request is assembled from the final header list. *)
Definition buildRequest (uuid : nat -> jsstring)
    (rurl : jsstring) (data : jsval) (exheaders exoptions : jsobject) : result jsobject :=
  let curl := url_parse rurl in
  let secure := match protocol curl with Some p => jsstring_eqb p (str "https:") | None => false end in
  let path := or_else (pathname curl) (str "/") ++ or_else (search curl) [] ++ or_else (hash curl) [] in
  let method := if truthy data then str "POST" else str "GET" in
  let headers := base_headers exoptions curl in
  let mergeOptions := [str "headers"] in
  let attachments := attachments_of exoptions in
  let forceMTOM := truthy (get exoptions (str "forceMTOM")) in
  let headers :=
    if is_string data && Nat.eqb (List.length attachments) 0 && negb forceMTOM
    then headers_set (str "Content-Type") (str "application/x-www-form-urlencoded")
           (headers_set (str "Content-Length")
              (dec (byteLength (match data with VStr s => s | _ => [] end))) headers)
    else headers in
  let headers := apply_exheaders exheaders headers in
  let options (headers : header_list) : jsobject :=
    [ (str "uri", VStr rurl);
      (str "method", VStr method);
      (str "headers", VHeaders headers []);
      (str "redirect", VStr (str "follow")) ] in
  let built : result jsobject :=
    if forceMTOM || Nat.ltb 0 (List.length attachments) then
      let start := uuid 0%nat in
      match headers_get (str "content-type") headers with
      | None => Throw (TypeError "Cannot read properties of null (reading 'indexOf')")
      | Some contentType =>
          let action := action_of contentType in
          let contentType :=
            str "multipart/related; type=" ++ dq ++ str "application/xop+xml" ++ dq
            ++ str "; start=" ++ dq ++ str "<" ++ start ++ str ">" ++ dq
            ++ str "; start-info=" ++ dq ++ str "text/xml" ++ dq
            ++ str "; boundary=" ++ uuid 1%nat in
          let contentType :=
            match action with
            | Some a => contentType ++ str "; " ++ a
            | None => contentType
            end in
          let headers := headers_set (str "Content-Type") contentType headers in
          let multipart :=
            VObj [ (str "Content-Type",
                     VStr (str "application/xop+xml; charset=UTF-8; type=" ++ dq ++ str "text/xml" ++ dq));
                   (str "Content-ID", VStr (str "<" ++ start ++ str ">"));
                   (str "body", data) ]
            :: map attachment_part attachments in
          Ok (assign (str "multipart") (VArr multipart) (options headers))
      end
    else Ok (assign (str "body") data (options headers)) in
  match built with
  | Ok options => Ok (merge_exoptions mergeOptions exoptions options)
  | Throw e => Throw e
  end.

(* ================================================================== *)
(** * [HttpClient.handleResponse] *)
(* ================================================================== *)

(** The body as the pattern sees it: its first comment block cut out. *)
Definition without_comment (body : jsstring) : jsstring :=
  replace_first_empty false comment_re body.

(** [handleResponse(req, res, body)]; of its arguments only [body] is read. *)
Definition handleResponse (body : jsval) : jsval :=
  match body with
  | VStr s =>
      match exec true envelope_re (without_comment s) with
      | Some m => VStr (matched m)
      | None => body
      end
  | _ => body
  end.

(* ================================================================== *)
(** * Callbacks, promises and the world they act on *)
(* ================================================================== *)

(** What a library call or a network exchange comes to: a value, or an
    [Error] object (thrown, or the reason of a rejected promise). *)
Inductive outcome (A : Type) : Type :=
| Done (a : A)
| Failed (name message : jsstring).
Arguments Done {A} a.
Arguments Failed {A} name message.

(** A response of the fetch API, with the properties [requestWrapper] adds
    to it (absent until then).  [text] is what [res.text()] settles to. *)
Record IResponse : Type := {
  status : Z;
  statusText : jsstring;
  res_headers : header_list;
  res_body : jsval;
  text : outcome jsstring;
  statusCode : option Z;
  statusMessage : option jsstring;
  elapsedTime : option Z;
  requestHeaders : option jsobject;
  responseHeaders : option jsobject
}.

(** The arguments [(error, res, body)] of a completion callback; an omitted
    [res] is [None], an omitted [body] is [undefined]. *)
Definition cb_args : Type := (jsval * option IResponse * jsval)%type.

(** The state one call of [request] acts on: the one-shot guard [_.once]
    keeps (has the function run, and what it returned), the invocations of
    the caller's callback, the request descriptors handed to the transport
    executor, the exchanges started with [fetch], and the readings of the
    clock so far. *)
Record world : Type := {
  called : bool;
  cached : jsval;
  user_calls : list cb_args;
  sent : list jsobject;
  fetched : list (jsval * jsobject);
  ticks : nat
}.

Definition initial_world : world :=
  {| called := false; cached := VUndefined; user_calls := []; sent := [];
     fetched := []; ticks := 0 |}.

(** A computation: it acts on the world and returns or throws.  A promise is
    a computation that has not run yet; fulfilment is a return, rejection a
    throw, and the reactions of one chain run in the order of the chain. *)
Definition M (A : Type) : Type := world -> result A * world.

Definition ret {A} (a : A) : M A := fun w => (Ok a, w).
Definition throw {A} (e : jsval) : M A := fun w => (Throw e, w).

Definition bind {A B} (m : M A) (f : A -> M B) : M B :=
  fun w =>
    match m w with
    | (Ok a, w') => f a w'
    | (Throw e, w') => (Throw e, w')
    end.

(** [p.then(f)] and [p.catch(h)]. *)
Definition then_ {A B} (p : M A) (f : A -> M B) : M B := bind p f.

Definition catch_ {A} (p : M A) (h : jsval -> M A) : M A :=
  fun w =>
    match p w with
    | (Ok a, w') => (Ok a, w')
    | (Throw e, w') => h e w'
    end.

(** A promise chain nobody awaits: it runs, and a rejection left at its end
    goes nowhere. *)
Definition detach {A} (p : M A) : M unit :=
  fun w => (Ok tt, snd (p w)).

Definition settle {A} (o : outcome A) : M A :=
  match o with
  | Done a => ret a
  | Failed name message => throw (VError name message)
  end.

Definition lift {A} (r : result A) : M A := fun w => (r, w).

Notation "x <- m ;; k" := (bind m (fun x => k))
  (at level 61, m at next level, right associativity).
Notation "m ;;; k" := (bind m (fun _ => k))
  (at level 61, right associativity).

(** What the network, the NTLM library and the clock supply: what the
    exchange started by [fetch(uri, init)] comes to; what
    [ntlm.createType1Message(authOpts)] returns or throws; what
    [ntlm.createType3Message(ntlm.parseType2Message(auth), authOpts)] returns
    or throws, as one function of [auth] and [authOpts]; and the successive
    readings of [Date.now()]. *)
Variable fetch : jsval -> jsobject -> outcome IResponse.
Variable createType1Message : jsobject -> outcome jsstring.
Variable createType3Message : jsstring -> jsobject -> outcome jsstring.
Variable Date_now : nat -> Z.

Definition do_fetch (uri : jsval) (init : jsobject) : M IResponse :=
  fun w =>
    settle (fetch uri init)
      {| called := called w; cached := cached w; user_calls := user_calls w;
         sent := sent w; fetched := fetched w ++ [(uri, init)]; ticks := ticks w |}.

Definition now : M Z :=
  fun w =>
    (Ok (Date_now (ticks w)),
     {| called := called w; cached := cached w; user_calls := user_calls w;
        sent := sent w; fetched := fetched w; ticks := S (ticks w) |}).

(** A call of the function the caller of [request] supplied: the call is
    recorded, and it returns or throws as that function does. *)
Definition invoke (f : cb_args -> result jsval) (a : cb_args) : M jsval :=
  fun w =>
    (f a,
     {| called := called w; cached := cached w; user_calls := user_calls w ++ [a];
        sent := sent w; fetched := fetched w; ticks := ticks w |}).

(** [_.once(f)]: the first call runs [f] and keeps what it returns, every
    later call returns that value without running [f]. *)
Definition once (f : cb_args -> result jsval) (a : cb_args) : M jsval :=
  fun w =>
    if called w then (Ok (cached w), w)
    else
      match invoke f a
              {| called := true; cached := cached w; user_calls := user_calls w;
                 sent := sent w; fetched := fetched w; ticks := ticks w |} with
      | (Ok v, w') =>
          (Ok v,
           {| called := called w'; cached := v; user_calls := user_calls w';
              sent := sent w'; fetched := fetched w'; ticks := ticks w' |})
      | (Throw e, w') => (Throw e, w')
      end.

(* ================================================================== *)
(** * The transport executor *)
(* ================================================================== *)

Definition delete (k : jsstring) (o : jsobject) : jsobject :=
  filter (fun kv => negb (jsstring_eqb (fst kv) k)) o.

(** [requestWrapper(options, callback)], the default executor. *)
Definition requestWrapper (options : jsobject) (callback : cb_args -> M jsval) : M jsval :=
  let uri := get options (str "uri") in
  let fetchOptions := delete (str "uri") options in
  let headers : jsobject :=
    map (fun kv => (fst kv, VStr (snd kv))) (header_list_of (get options (str "headers"))) in
  start <- now ;;
  detach
    (catch_
       (then_ (do_fetch uri fetchOptions)
          (fun response =>
             finish <- now ;;
             let response :=
               {| status := status response;
                  statusText := statusText response;
                  res_headers := res_headers response;
                  res_body := res_body response;
                  text := text response;
                  statusCode := Some (status response);
                  statusMessage := Some (statusText response);
                  elapsedTime := Some (finish - start)%Z;
                  requestHeaders := Some headers;
                  responseHeaders :=
                    Some (map (fun kv => (fst kv, VStr (snd kv))) (res_headers response)) |} in
             callback (VNull, Some response, res_body response)))
       (fun err => callback (err, None, VUndefined))) ;;;
  ret (VObj [(str "headers", VObj headers)]).

(** The executor of a client: the default one, or the function given as
    [options.request].  Such a function is known by what it does with a
    request: the calls it makes to its callback, one after the other and each
    from a task of its own, and the value it returns. *)
Inductive IRequestHandler : Type :=
| DefaultHandler
| CustomHandler (calls : jsobject -> list cb_args) (returns : jsval).

Record HttpClient : Type := { _request : IRequestHandler }.

(** [new HttpClient(options)]. *)
Definition HttpClient_new (request : option IRequestHandler) : HttpClient :=
  {| _request := match request with Some h => h | None => DefaultHandler end |}.

Fixpoint run_calls (callback : cb_args -> M jsval) (calls : list cb_args) : M unit :=
  match calls with
  | [] => ret tt
  | a :: rest => detach (callback a) ;;; run_calls callback rest
  end.

(** [this._request(options, callback)]. *)
Definition call_request (self : HttpClient) (options : jsobject)
    (callback : cb_args -> M jsval) : M jsval :=
  fun w =>
    let w :=
      {| called := called w; cached := cached w; user_calls := user_calls w;
         sent := sent w ++ [options]; fetched := fetched w; ticks := ticks w |} in
    match _request self with
    | DefaultHandler => requestWrapper options callback w
    | CustomHandler calls returns => (run_calls callback (calls options) ;;; ret returns) w
    end.

(* ================================================================== *)
(** * [HttpClient.request] and the NTLM handshake *)
(* ================================================================== *)

(** [ntlmHandshake(rurl, authOpts)]: the Type-1 message is made at once, the
    promise returned does the rest. *)
Definition ntlmHandshake (rurl : jsstring) (authOpts : jsobject) : M (M jsstring) :=
  type1 <- settle (createType1Message authOpts) ;;
  ret
    (then_
       (then_
          (do_fetch (VStr rurl)
             [(str "headers",
                VObj [(str "Connection", VStr (str "keep-alive"));
                      (str "Authorization", VStr type1)])])
          (fun response => ret (headers_get (str "www-authenticate") (res_headers response))))
       (fun auth =>
          match auth with
          | None | Some [] => throw (Error "Stage 1 NTLM handshake failed.")
          | Some auth => settle (createType3Message auth authOpts)
          end)).

(** The [callback] closure of [request], over the guarded [_callback]. *)
Definition callback (_callback : cb_args -> M jsval) (a : cb_args) : M jsval :=
  let '(error, res, body) := a in
  if truthy error then
    _callback (error, res, body) ;;; ret VUndefined
  else if is_string body then
    _callback (VNull, res, handleResponse body) ;;; ret VUndefined
  else
    match res with
    | None => throw (TypeError "Cannot read properties of undefined (reading 'text')")
    | Some r =>
        detach
          (then_
             (catch_ (t <- settle (text r) ;; ret (VStr t))
                (fun err => _callback (err, res, VUndefined)))
             (fun text => _callback (VNull, res, handleResponse text))) ;;;
        ret VUndefined
    end.

(** [request(rurl, data, _callback, exheaders, exoptions)]. *)
Definition request (self : HttpClient) (uuid : nat -> jsstring)
    (rurl : jsstring) (data : jsval) (_callback : cb_args -> result jsval)
    (exheaders exoptions : jsobject) : M jsval :=
  let _callback := once _callback in
  let callback := callback _callback in
  options <- lift (buildRequest uuid rurl data exheaders exoptions) ;;
  if hasOwnProperty exoptions (str "ntlm") then
    handshake <- ntlmHandshake rurl options ;;
    detach
      (catch_
         (then_ handshake
            (fun auth =>
               let headers := headers_set (str "Authorization") auth
                                (header_list_of (get options (str "headers"))) in
               let ntlmOptions := assign (str "headers") (VHeaders headers []) options in
               call_request self ntlmOptions callback))
         (fun err => callback (err, None, VUndefined))) ;;;
    ret VUndefined
  else
    call_request self options callback.

(* ================================================================== *)
(** * Vocabulary of the statements *)
(* ================================================================== *)

(** An object of headers has an entry for [name], whatever the case. *)
Definition has_header (name : jsstring) (o : jsobject) : bool :=
  existsb (fun kv => jsstring_eqb (lower name) (lower (fst kv))) o.

(** The header a request descriptor carries under [name]: what
    [options.headers.get(name)] returns, and what goes on the wire. *)
Definition request_header (options : jsobject) (name : jsstring) : option jsstring :=
  headers_get name (header_list_of (get options (str "headers"))).

(** The multipart branch of [buildRequest] is taken. *)
Definition wants_multipart (exoptions : jsobject) : bool :=
  truthy (get exoptions (str "forceMTOM")) || Nat.ltb 0 (List.length (attachments_of exoptions)).

(** [c] occurs in [s]. *)
Definition mentions (c : code_unit) (s : jsstring) : bool := existsb (cu_eqb c) s.

(** Equality of two texts up to the case folding of the [i] flag. *)
Definition ci_eq (a b : jsstring) : Prop := map Canonicalize a = map Canonicalize b.


(** An XML declaration [<?d?>] followed by the white space [ws], or none. *)
Definition declaration_text (decl : option (jsstring * jsstring)) : jsstring :=
  match decl with
  | Some (d, ws) => str "<?" ++ d ++ str "?>" ++ ws
  | None => []
  end.

(** The callback arguments a transport may pass without breaking the
    [callback] closure: an error, or a body in text form, or a response to
    read the text from. *)
Definition well_formed_call (a : cb_args) : bool :=
  let '(error, res, body) := a in
  truthy error || is_string body || match res with Some _ => true | None => false end.

(** A transport executor that answers every request: the default one does,
    a custom one has to call back at least once, each time with arguments
    of the shape above. *)
Definition answers (h : IRequestHandler) : Prop :=
  match h with
  | DefaultHandler => True
  | CustomHandler calls _ =>
      forall options, calls options <> [] /\ forallb well_formed_call (calls options) = true
  end.

(** The world when [m] has run from the initial one. *)
Definition run {A} (m : M A) : world := snd (m initial_world).

(** The one-shot guard and the record of calls agree: the caller's callback
    has been called once if the guard is spent, and never otherwise. *)
Definition guard_consistent (w : world) : Prop :=
  List.length (user_calls w) = if called w then 1%nat else 0%nat.

(** [m] keeps that agreement and never restores a spent guard. *)
Definition keeps_guard {A} (m : M A) : Prop :=
  forall w,
    (guard_consistent w -> guard_consistent (snd (m w)))
    /\ (called w = true -> called (snd (m w)) = true).

(** [m] leaves the guard spent, however it ends. *)
Definition fires {A} (m : M A) : Prop :=
  forall w, called (snd (m w)) = true.

(** The probe request of the NTLM handshake. *)
Definition probe_init (type1 : jsstring) : jsobject :=
  [(str "headers",
     VObj [(str "Connection", VStr (str "keep-alive"));
           (str "Authorization", VStr type1)])].

(* ================================================================== *)
(** * Sample inputs and a sample host *)
(* ================================================================== *)

(** Two identifiers, as the generator would return them in turn. *)
Definition sample_uuid (i : nat) : jsstring :=
  match i with
  | O => str "3f2b6c1e-start"
  | _ => str "9a7d4e05-boundary"
  end.

(** A host whose upper-case mapping leaves every character outside ASCII
    where it is.  The sample texts are ASCII texts, on which the mapping
    outside ASCII plays no part. *)
Definition sample_toUpperCase (c : code_unit) : code_unit := c.


(** A response as [fetch] resolves with it. *)
Definition sample_response (code : Z) (reason : string) (hs : header_list) : IResponse :=
  {| status := code;
     statusText := str reason;
     res_headers := hs;
     res_body := VStream 7;
     text := Done (str "<soap:Envelope><soap:Body/></soap:Envelope>");
     statusCode := None;
     statusMessage := None;
     elapsedTime := None;
     requestHeaders := None;
     responseHeaders := None |}.

(** A network that answers every request with status 500. *)
Definition sample_fetch_500 (uri : jsval) (init : jsobject) : outcome IResponse :=
  Done (sample_response 500 "Internal Server Error" []).

(** A network whose server does not speak NTLM: status 401, no challenge. *)
Definition sample_fetch_no_challenge (uri : jsval) (init : jsobject) : outcome IResponse :=
  Done (sample_response 401 "Unauthorized" [(str "content-type", str "text/html")]).

Definition sample_createType1Message (authOpts : jsobject) : outcome jsstring :=
  Done (str "NTLM TlRMTVNTUAABAAAA").

Definition sample_createType3Message (auth : jsstring) (authOpts : jsobject) : outcome jsstring :=
  Done (str "NTLM TlRMTVNTUAADAAAA").

Definition sample_clock (n : nat) : Z := (1000 + 25 * Z.of_nat n)%Z.

(** The body of the example in the specification:
    junk, a declaration, an envelope, trailing text. *)
Definition sample_body : jsstring :=
  str "junk<?xml version=" ++ dq ++ str "1.0" ++ dq
  ++ str "?><soap:Envelope>...</soap:Envelope>trailing".

Definition sample_body_normalized : jsstring :=
  str "<?xml version=" ++ dq ++ str "1.0" ++ dq
  ++ str "?><soap:Envelope>...</soap:Envelope>".

(** A caller's callback that returns nothing. *)
Definition sample_callback (a : cb_args) : result jsval := Ok VUndefined.

(** A replacement executor that never calls back. *)
Definition silent_handler : IRequestHandler := CustomHandler (fun _ => []) VUndefined.

(* ================================================================== *)
(** * Vocabulary for the stages of [buildRequest] *)
(* ================================================================== *)

(** The test of the first branch of [buildRequest]: a string payload, no
    attachment, no forced multipart. *)
Definition plain_branch (data : jsval) (exoptions : jsobject) : bool :=
  is_string data && Nat.eqb (List.length (attachments_of exoptions)) 0
  && negb (truthy (get exoptions (str "forceMTOM"))).

(** The header list when the loop over the extra headers is over, before
    the body is encoded. *)
Definition headers_before_body (rurl : jsstring) (data : jsval)
    (exheaders exoptions : jsobject) : header_list :=
  apply_exheaders exheaders
    (if plain_branch data exoptions
     then headers_set (str "Content-Type") (str "application/x-www-form-urlencoded")
            (headers_set (str "Content-Length")
               (dec (byteLength (match data with VStr s => s | _ => [] end)))
               (base_headers exoptions (url_parse rurl)))
     else base_headers exoptions (url_parse rurl)).

(** The four properties every request starts with. *)
Definition request_fields (rurl : jsstring) (data : jsval) (headers : header_list) : jsobject :=
  [ (str "uri", VStr rurl);
    (str "method", VStr (if truthy data then str "POST" else str "GET"));
    (str "headers", VHeaders headers []);
    (str "redirect", VStr (str "follow")) ].

(** The content type of a multipart request, without the [action] piece. *)
Definition multipart_content_type (uuid : nat -> jsstring) : jsstring :=
  str "multipart/related; type=" ++ dq ++ str "application/xop+xml" ++ dq
  ++ str "; start=" ++ dq ++ str "<" ++ uuid 0%nat ++ str ">" ++ dq
  ++ str "; start-info=" ++ dq ++ str "text/xml" ++ dq
  ++ str "; boundary=" ++ uuid 1%nat.

(** The first part of a multipart body. *)
Definition primary_part (uuid : nat -> jsstring) (data : jsval) : jsval :=
  VObj [ (str "Content-Type",
           VStr (str "application/xop+xml; charset=UTF-8; type=" ++ dq ++ str "text/xml" ++ dq));
         (str "Content-ID", VStr (str "<" ++ uuid 0%nat ++ str ">"));
         (str "body", data) ].

(* ================================================================== *)
(** * Vocabulary for the result of [handleResponse] *)
(* ================================================================== *)

(** A text that runs from an optional lead ([decl]) and an open tag
    [<p:Envelope] to a close tag [</p:Envelope>], the names compared
    without regard to case. *)
Definition envelope_shaped (r : jsstring) : Prop :=
  exists decl p e1 mid p' e2,
    r = decl ++ str "<" ++ p ++ str ":" ++ e1 ++ mid ++ str "</" ++ p' ++ str ":" ++ e2 ++ str ">"
    /\ mentions 58%N p = false
    /\ ci_eq p p' /\ ci_eq e1 (str "Envelope") /\ ci_eq e2 (str "Envelope").


(* ================================================================== *)
(** * [HttpClient.requestStream] *)
(* ================================================================== *)

(** What the stream library supplies: which stream objects are instances of
    [PassThrough], and what [stream.emit('error', err)] comes to on the
    stream handed out (it returns when somebody listens, and throws when
    nobody does). *)
Section Stream.

Variable is_PassThrough : nat -> bool.
Variable emit_error : jsval -> result jsval.

(** [v instanceof PassThrough]. *)
Definition instanceof_PassThrough (v : jsval) : bool :=
  match v with
  | VStream id => is_PassThrough id
  | _ => false
  end.

(** What happens to the stream handed out. *)
Inductive stream_event : Type :=
| EmitError (err : jsval)     (* stream.emit('error', err) *)
| PipeFrom (body : jsval).    (* body.pipe(stream) *)

(** The callback [requestStream] gives to the executor: what one call does
    to the stream, and how the call ends. *)
Definition stream_callback (a : cb_args) : list stream_event * result jsval :=
  let '(err, response, body) := a in
  if truthy err then
    ([EmitError err],
     match emit_error err with
     | Ok _ => Ok VUndefined
     | Throw e => Throw e
     end)
  else if instanceof_PassThrough body then ([PipeFrom body], Ok VUndefined)
  else ([], Ok VUndefined).

(** [requestStream(rurl, data, exheaders, exoptions)]; [stream] names the
    [PassThrough] it creates.  The calls of its callback are recorded where
    [request] records those of the caller's. *)
Definition requestStream (self : HttpClient) (uuid : nat -> jsstring) (stream : nat)
    (rurl : jsstring) (data : jsval) (exheaders exoptions : jsobject) : M jsval :=
  options <- lift (buildRequest uuid rurl data exheaders exoptions) ;;
  call_request self options (invoke (fun a => snd (stream_callback a))) ;;;
  ret (VStream stream).

(** The events on the stream, in order, when the world is [w]. *)
Definition stream_events (w : world) : list stream_event :=
  flat_map (fun a => fst (stream_callback a)) (user_calls w).

End Stream.

(* ================================================================== *)
(** * Vocabulary for what goes on the wire *)
(* ================================================================== *)

(** The part of the world a callback has no hand in: the requests handed
    to the executor, the exchanges started, the readings of the clock. *)
Definition wire (w : world) : list jsobject * list (jsval * jsobject) * nat :=
  (sent w, fetched w, ticks w).

(** [m] leaves [field] of the world as it found it. *)
Definition preserves {A B} (field : world -> B) (m : M A) : Prop :=
  forall w, field (snd (m w)) = field w.

(** The request headers as the default executor reports them. *)
Definition reported_headers (options : jsobject) : jsval :=
  VObj [(str "headers",
          VObj (map (fun kv => (fst kv, VStr (snd kv)))
                  (header_list_of (get options (str "headers")))))].

(** The response as the default executor hands it on, after the exchange
    started at the clock reading [start] and ended at [finish]. *)
Definition handed_on (options : jsobject) (start finish : Z) (response : IResponse) : IResponse :=
  {| status := status response;
     statusText := statusText response;
     res_headers := res_headers response;
     res_body := res_body response;
     text := text response;
     statusCode := Some (status response);
     statusMessage := Some (statusText response);
     elapsedTime := Some (finish - start)%Z;
     requestHeaders :=
       Some (map (fun kv => (fst kv, VStr (snd kv)))
               (header_list_of (get options (str "headers"))));
     responseHeaders :=
       Some (map (fun kv => (fst kv, VStr (snd kv))) (res_headers response)) |}.

(** A sample stream library: stream 7 (the body of the sample response) is
    a [PassThrough], and somebody listens for errors. *)
Definition sample_is_PassThrough (id : nat) : bool := Nat.eqb id 7.
Definition sample_emit_error (err : jsval) : result jsval := Ok (VBool true).

(** A network that is down. *)
Definition sample_fetch_down (uri : jsval) (init : jsobject) : outcome IResponse :=
  Failed (str "FetchError") (str "connect ECONNREFUSED").



(* ================================================================== *)
(** * Property lists and header lists *)
(* ================================================================== *)

Lemma jsstring_eqb_eq (a b : jsstring) : jsstring_eqb a b = true <-> a = b.
Proof.
  revert b; induction a as [|x a IH]; intros [|y b]; simpl.
  - split; reflexivity.
  - split; discriminate.
  - split; discriminate.
  - rewrite andb_true_iff, IH. unfold cu_eqb. rewrite N.eqb_eq.
    split; [intros [-> ->]; reflexivity | intros H; inversion H; auto].
Qed.

Lemma jsstring_eqb_refl (a : jsstring) : jsstring_eqb a a = true.
Proof. apply jsstring_eqb_eq; reflexivity. Qed.

Lemma jsstring_eqb_neq (a b : jsstring) : a <> b -> jsstring_eqb a b = false.
Proof.
  intros H. destruct (jsstring_eqb a b) eqn:E; [|reflexivity].
  apply jsstring_eqb_eq in E. contradiction.
Qed.


Lemma starts_with_app (pat rest : jsstring) : starts_with pat (pat ++ rest) = true.
Proof.
  induction pat as [|x pat IH]; simpl; [reflexivity|].
  unfold cu_eqb. rewrite N.eqb_refl. exact IH.
Qed.

Lemma contains_app_r (pat a b : jsstring) :
  contains pat b = true -> contains pat (a ++ b) = true.
Proof.
  intros H. induction a as [|x a IH]; [exact H|].
  simpl. rewrite IH. apply orb_true_r.
Qed.

Lemma contains_at_start (pat rest : jsstring) : contains pat (pat ++ rest) = true.
Proof.
  assert (H : forall s, contains pat s
                        = starts_with pat s
                          || match s with [] => false | _ :: s' => contains pat s' end)
    by (intros [|x s]; reflexivity).
  rewrite H, starts_with_app. reflexivity.
Qed.

Lemma lookup_assign_eq {A} (k : jsstring) (v : A) o : lookup k (assign k v o) = Some v.
Proof.
  induction o as [|[k' v'] o IH]; simpl.
  - rewrite jsstring_eqb_refl. reflexivity.
  - destruct (jsstring_eqb k k') eqn:E; simpl; rewrite E; auto.
Qed.

Lemma lookup_assign_neq {A} (k k' : jsstring) (v : A) o :
  k <> k' -> lookup k (assign k' v o) = lookup k o.
Proof.
  intros H. induction o as [|[k2 v2] o IH]; simpl.
  - rewrite (jsstring_eqb_neq H). reflexivity.
  - destruct (jsstring_eqb k' k2) eqn:E; simpl.
    + apply jsstring_eqb_eq in E; subst. rewrite (jsstring_eqb_neq H). reflexivity.
    + destruct (jsstring_eqb k k2); auto.
Qed.

Lemma get_assign_eq (k : jsstring) (v : jsval) o : get (assign k v o) k = v.
Proof. unfold get. rewrite lookup_assign_eq. reflexivity. Qed.

Lemma get_assign_neq (k k' : jsstring) (v : jsval) o :
  k <> k' -> get (assign k' v o) k = get o k.
Proof. intros H. unfold get. rewrite lookup_assign_neq by assumption. reflexivity. Qed.

Lemma headers_get_set (n n' v : jsstring) (h : header_list) :
  headers_get n (headers_set n' v h)
  = if jsstring_eqb (lower n) (lower n') then Some v else headers_get n h.
Proof.
  unfold headers_get, headers_set.
  destruct (jsstring_eqb (lower n) (lower n')) eqn:E.
  - apply jsstring_eqb_eq in E. rewrite E. apply lookup_assign_eq.
  - apply lookup_assign_neq. intros H. rewrite H, jsstring_eqb_refl in E. discriminate.
Qed.

(** The extra headers leave alone every header they do not name. *)
Lemma apply_exheaders_keeps (n : jsstring) (exheaders : jsobject) (h : header_list) :
  has_header n exheaders = false ->
  headers_get n (apply_exheaders exheaders h) = headers_get n h.
Proof.
  unfold apply_exheaders. revert h.
  induction exheaders as [|[k v] ex IH]; intros h H; simpl in *; [reflexivity|].
  apply orb_false_iff in H. destruct H as [Hk Hex].
  rewrite IH by assumption. rewrite headers_get_set. rewrite Hk. reflexivity.
Qed.



(* ================================================================== *)
(** * The merge of the extra options *)
(* ================================================================== *)

Lemma lookup_omit (k : jsstring) (keys : list jsstring) (o : jsobject) :
  existsb (jsstring_eqb k) keys = false -> lookup k (omit keys o) = lookup k o.
Proof.
  intros Hk. induction o as [|[k' v] o IH]; simpl; [reflexivity|].
  destruct (existsb (jsstring_eqb k') keys) eqn:E; simpl.
  - destruct (jsstring_eqb k k') eqn:E'; [|assumption].
    apply jsstring_eqb_eq in E'; subst. congruence.
  - rewrite IH. reflexivity.
Qed.

(** Merging into the [headers] key writes properties of the object held
    there, never another key of the request. *)
Lemma merge_into_keeps_others (attr k : jsstring) (entries : jsobject) (options : jsobject) :
  k <> attr ->
  get (fold_left (fun options hv => assign attr (put (get options attr) (fst hv) (snd hv)) options)
         entries options) k
  = get options k.
Proof.
  intros H. revert options. induction entries as [|[hk hv] es IH]; intros options; simpl.
  - reflexivity.
  - rewrite IH. apply get_assign_neq. assumption.
Qed.

(** ... and it never touches the header list of a [Headers] instance. *)
Lemma merge_into_keeps_header_list (attr : jsstring) (entries : jsobject) (options : jsobject) h props :
  get options attr = VHeaders h props ->
  exists props',
    get (fold_left (fun options hv => assign attr (put (get options attr) (fst hv) (snd hv)) options)
           entries options) attr
    = VHeaders h props'.
Proof.
  revert options props. induction entries as [|[hk hv] es IH]; intros options props H; simpl.
  - exists props. assumption.
  - apply (IH _ (assign hk hv props)). rewrite get_assign_eq, H. reflexivity.
Qed.

Lemma merge_step_other (exoptions options : jsobject) (kv : jsstring * jsval) (k : jsstring) :
  k <> str "headers" ->
  get (merge_step [str "headers"] exoptions options kv) k
  = if jsstring_eqb k (fst kv) then get exoptions k else get options k.
Proof.
  intros Hk. unfold merge_step. destruct kv as [attr v]. simpl fst.
  simpl existsb. rewrite orb_false_r.
  destruct (jsstring_eqb attr (str "headers")) eqn:E.
  - apply jsstring_eqb_eq in E. subst attr.
    rewrite (jsstring_eqb_neq Hk). apply merge_into_keeps_others. assumption.
  - destruct (jsstring_eqb k attr) eqn:E'.
    + apply jsstring_eqb_eq in E'. subst. apply get_assign_eq.
    + apply get_assign_neq. intros ->. rewrite jsstring_eqb_refl in E'. discriminate.
Qed.

Lemma merge_loop_other (exoptions : jsobject) (l : jsobject) (options : jsobject) (k : jsstring) :
  k <> str "headers" ->
  get (fold_left (merge_step [str "headers"] exoptions) l options) k
  = match lookup k l with Some _ => get exoptions k | None => get options k end.
Proof.
  intros Hk. revert options. induction l as [|[attr v] l IH]; intros options; simpl.
  - reflexivity.
  - rewrite IH. rewrite merge_step_other by assumption. simpl fst.
    destruct (jsstring_eqb k attr); destruct (lookup k l); reflexivity.
Qed.

(** Every extra option other than [attachments] and [headers] ends up on the
    request as it was given; a key the extra options do not have keeps the
    value the request had. *)
Lemma merge_exoptions_other (exoptions options : jsobject) (k : jsstring) :
  k <> str "headers" -> k <> str "attachments" ->
  get (merge_exoptions [str "headers"] exoptions options) k
  = if hasOwnProperty exoptions k then get exoptions k else get options k.
Proof.
  intros Hh Ha. unfold merge_exoptions. rewrite merge_loop_other by assumption.
  rewrite lookup_omit.
  - unfold hasOwnProperty. destruct (lookup k exoptions); reflexivity.
  - simpl. rewrite (jsstring_eqb_neq Ha). reflexivity.
Qed.

Lemma merge_loop_headers (exoptions : jsobject) (l : jsobject) (options : jsobject) h props :
  get options (str "headers") = VHeaders h props ->
  exists props',
    get (fold_left (merge_step [str "headers"] exoptions) l options) (str "headers")
    = VHeaders h props'.
Proof.
  revert options props. induction l as [|[attr v] l IH]; intros options props H; simpl.
  - exists props. assumption.
  - unfold merge_step at 2. simpl fst. simpl existsb. rewrite orb_false_r.
    destruct (jsstring_eqb attr (str "headers")) eqn:E.
    + apply jsstring_eqb_eq in E. subst attr.
      destruct (merge_into_keeps_header_list (str "headers")
                  (for_in_entries (get exoptions (str "headers"))) options H) as [p' Hp'].
      apply (IH _ p'). assumption.
    + apply (IH _ props). rewrite get_assign_neq; [assumption|].
      intros Heq. rewrite <- Heq, jsstring_eqb_refl in E. discriminate.
Qed.

(** The header list of the request is the same before and after the merge,
    whatever the extra options hold under [headers]. *)
Lemma merge_exoptions_header_list (exoptions options : jsobject) h props (name : jsstring) :
  get options (str "headers") = VHeaders h props ->
  request_header (merge_exoptions [str "headers"] exoptions options) name = headers_get name h.
Proof.
  intros H. unfold request_header, merge_exoptions.
  destruct (merge_loop_headers exoptions (omit [str "attachments"] exoptions) options H) as [p' Hp'].
  rewrite Hp'. reflexivity.
Qed.

(* ================================================================== *)
(** * The request builder *)
(* ================================================================== *)


Lemma base_headers_no_content_type (exoptions : jsobject) (curl : UrlObject) :
  headers_get (str "content-type") (base_headers exoptions curl) = None.
Proof. reflexivity. Qed.



Lemma wants_multipart_not_plain (data : jsval) (exoptions : jsobject) :
  wants_multipart exoptions = true ->
  is_string data && Nat.eqb (List.length (attachments_of exoptions)) 0
    && negb (truthy (get exoptions (str "forceMTOM"))) = false.
Proof.
  unfold wants_multipart. intros H.
  destruct (truthy (get exoptions (str "forceMTOM"))); simpl in *.
  - rewrite andb_false_r. reflexivity.
  - destruct (attachments_of exoptions); simpl in *; [discriminate|].
    rewrite andb_false_r. reflexivity.
Qed.



(** C10.  In the multipart branch (an attachment, or [forceMTOM]) the
    content type already among the headers is read and searched; when the
    extra headers bring none (the base headers never do), [buildRequest]
    throws a [TypeError] instead of returning a request. *)
Theorem buildRequest_multipart_needs_content_type :
  forall (uuid : nat -> jsstring) (rurl : jsstring) (data : jsval) (exheaders exoptions : jsobject),
    wants_multipart exoptions = true ->
    has_header (str "Content-Type") exheaders = false ->
    buildRequest uuid rurl data exheaders exoptions
    = Throw (TypeError "Cannot read properties of null (reading 'indexOf')").
Proof.
  intros uuid rurl data exheaders exoptions Hw Hct.
  unfold buildRequest. cbv zeta.
  change (truthy (get exoptions (str "forceMTOM"))
          || Nat.ltb 0 (List.length (attachments_of exoptions)))
    with (wants_multipart exoptions).
  rewrite Hw, (wants_multipart_not_plain data exoptions Hw).
  rewrite (apply_exheaders_keeps (str "content-type") exheaders _ Hct).
  rewrite base_headers_no_content_type. reflexivity.
Qed.

(** The part of C8 the code keeps: an extra option other than [attachments]
    and [headers] is on the request as it was given. *)
Lemma buildRequest_copies_option :
  forall (uuid : nat -> jsstring) (rurl : jsstring) (data : jsval)
         (exheaders exoptions options : jsobject) (k : jsstring),
    buildRequest uuid rurl data exheaders exoptions = Ok options ->
    k <> str "headers" -> k <> str "attachments" ->
    hasOwnProperty exoptions k = true ->
    get options k = get exoptions k.
Proof.
  intros uuid rurl data exheaders exoptions options k Hb Hh Ha Hk.
  unfold buildRequest in Hb. cbv zeta in Hb.
  match type of Hb with
  | match ?b with Ok _ => _ | Throw _ => _ end = _ => destruct b as [o|e]
  end; [|discriminate].
  injection Hb as <-. rewrite merge_exoptions_other by assumption.
  rewrite Hk. reflexivity.
Qed.

(** C8 fails on the code.  With the extra options [{headers: {'X-Trace':
    'abc'}}] the request is built, but the entry is written as a property of
    the [Headers] instance: the header list has no [X-Trace], so the request
    does not carry that header. *)
Theorem buildRequest_headers_option_not_in_header_list :
  forall (uuid : nat -> jsstring) (rurl : jsstring),
    exists options h props,
      buildRequest uuid rurl (VStr (str "<a/>")) []
        [(str "headers", VObj [(str "X-Trace", VStr (str "abc"))])] = Ok options
      /\ get options (str "headers") = VHeaders h props
      /\ lookup (str "X-Trace") props = Some (VStr (str "abc"))
      /\ headers_get (str "X-Trace") h = None
      /\ request_header options (str "X-Trace") = None.
Proof.
  intros uuid rurl. eexists. eexists. eexists.
  split; [reflexivity|]. split; [reflexivity|].
  split; [reflexivity|]. split; reflexivity.
Qed.



(* ================================================================== *)
(** * The matcher *)
(* ================================================================== *)

(** A character of ASCII that is not a letter is alone in its class under
    case folding. *)
Lemma Canonicalize_plain (c x : code_unit) :
  (c < 65 \/ (90 < c /\ c < 97) \/ (122 < c /\ c < 128))%N ->
  Canonicalize x = Canonicalize c -> x = c.
Proof.
  intros Hc. unfold Canonicalize, ascii_upper.
  destruct (N.ltb_spec x 128) as [Hx|Hx]; destruct (N.ltb_spec c 128) as [Hc'|Hc']; try lia.
  - destruct (N.leb_spec 97 x); destruct (N.leb_spec x 122);
      destruct (N.leb_spec 97 c); destruct (N.leb_spec c 122); simpl; lia.
  - destruct (N.ltb_spec (toUpperCase x) 128);
      destruct (N.leb_spec 97 c); destruct (N.leb_spec c 122); simpl; lia.
Qed.

Lemma Canonicalize_plain_eqb (c x : code_unit) :
  (c < 65 \/ (90 < c /\ c < 97) \/ (122 < c /\ c < 128))%N ->
  cu_eqb (Canonicalize c) (Canonicalize x) = cu_eqb c x.
Proof.
  intros Hc. unfold cu_eqb.
  destruct (N.eqb_spec c x) as [->|Hne].
  - apply N.eqb_refl.
  - apply N.eqb_neq. intros H. apply Hne. symmetry.
    apply Canonicalize_plain; [assumption | symmetry; assumption].
Qed.

Lemma mentions_false_iff (c : code_unit) (s : jsstring) :
  mentions c s = false <-> ~ In c s.
Proof.
  unfold mentions. induction s as [|x s IH]; simpl.
  - split; [intros _ [] | reflexivity].
  - rewrite orb_false_iff, IH. unfold cu_eqb. rewrite N.eqb_neq.
    split; [intros [H1 H2] [H|H]; [apply H1; auto | apply H2; auto]
           | intros H; split; [intros Heq; apply H; left; auto | intros Hin; apply H; right; auto]].
Qed.

Lemma mentions_app (c : code_unit) (a b : jsstring) :
  mentions c (a ++ b) = mentions c a || mentions c b.
Proof. unfold mentions. apply existsb_app. Qed.

(** Two texts equal up to case hold the same non-letters of ASCII. *)
Lemma ci_eq_mentions (c : code_unit) (a b : jsstring) :
  (c < 65 \/ (90 < c /\ c < 97) \/ (122 < c /\ c < 128))%N ->
  ci_eq a b -> mentions c a = mentions c b.
Proof.
  intros Hc. unfold ci_eq. revert b.
  induction a as [|x a IH]; intros [|y b] H; simpl in *; try discriminate; [reflexivity|].
  injection H as Hxy Hab. rewrite (IH b Hab). f_equal.
  rewrite <- (Canonicalize_plain_eqb x Hc), <- (Canonicalize_plain_eqb y Hc).
  rewrite Hxy. reflexivity.
Qed.

Lemma ci_eq_singleton (c : code_unit) (w : jsstring) :
  (c < 65 \/ (90 < c /\ c < 97) \/ (122 < c /\ c < 128))%N ->
  map Canonicalize w = map Canonicalize [c] -> w = [c].
Proof.
  intros Hc H. destruct w as [|x [|y w]]; simpl in H; try discriminate.
  injection H as H. f_equal. apply Canonicalize_plain; assumption.
Qed.

Lemma firstn_consumed (w s' : jsstring) :
  firstn (List.length (w ++ s') - List.length s') (w ++ s') = w.
Proof.
  rewrite length_app.
  replace (List.length w + List.length s' - List.length s')%nat with (List.length w) by lia.
  rewrite firstn_app, Nat.sub_diag, firstn_all. simpl. apply app_nil_r.
Qed.

Lemma lits_sound (ic : bool) (l s s' : jsstring) :
  lits ic l s = Some s' ->
  exists w, s = w ++ s' /\ map (canon ic) w = map (canon ic) l.
Proof.
  revert s. induction l as [|a l IH]; intros s H.
  - destruct s; simpl in H; injection H as <-; exists []; split; reflexivity.
  - destruct s as [|x t]; simpl in H; [discriminate|].
    destruct (cu_eqb (canon ic a) (canon ic x)) eqn:E; [|discriminate].
    apply IH in H. destruct H as [w [-> Hw]].
    exists (x :: w). split; [reflexivity|]. simpl.
    apply N.eqb_eq in E. rewrite E, Hw. reflexivity.
Qed.

Lemma lits_complete (ic : bool) (l w s' : jsstring) :
  map (canon ic) w = map (canon ic) l -> lits ic l (w ++ s') = Some s'.
Proof.
  revert w. induction l as [|a l IH]; intros [|x w] H; simpl in H; try discriminate.
  - destruct s'; reflexivity.
  - injection H as Hx Hw. simpl. rewrite Hx. unfold cu_eqb at 1. rewrite N.eqb_refl.
    apply IH. assumption.
Qed.

Lemma lits_mismatch (ic : bool) (a x : code_unit) (l t : jsstring) :
  cu_eqb (canon ic a) (canon ic x) = false -> lits ic (a :: l) (x :: t) = None.
Proof. intros H. simpl. rewrite H. reflexivity. Qed.

Lemma star_greedy_sound (p : code_unit -> bool) (k : cont) (s : jsstring) (c : captures) r :
  star_greedy p k s c = Some r ->
  exists w s', s = w ++ s' /\ forallb p w = true /\ k s' c = Some r.
Proof.
  induction s as [|x t IH]; simpl; intros H.
  - exists [], []. auto.
  - destruct (p x) eqn:Hp.
    + destruct (star_greedy p k t c) as [r'|] eqn:Ht.
      * injection H as <-. destruct (IH eq_refl) as [w [s' [-> [Hw Hk]]]].
        exists (x :: w), s'. simpl. rewrite Hp, Hw. auto.
      * exists [], (x :: t). auto.
    + exists [], (x :: t). auto.
Qed.

(** The longest run comes first: when what follows the run is not in the
    class and the continuation accepts it, that is the answer. *)
Lemma star_greedy_longest (p : code_unit -> bool) (k : cont) (w s' : jsstring) (c : captures) r :
  forallb p w = true ->
  match s' with x :: _ => p x = false | [] => True end ->
  k s' c = Some r ->
  star_greedy p k (w ++ s') c = Some r.
Proof.
  intros Hw Hs Hk. induction w as [|x w IH]; simpl in *.
  - destruct s' as [|y t]; simpl; [assumption|]. rewrite Hs. assumption.
  - apply andb_true_iff in Hw. destruct Hw as [Hx Hw].
    rewrite Hx, (IH Hw). reflexivity.
Qed.

(** A repetition of any character gives back from the end: the answer is
    the continuation's at the last place where it accepts. *)
Lemma star_any_gives_back (p : code_unit -> bool) (k : cont) (b : jsstring) (c : captures) :
  (forall x, p x = true) ->
  (forall u t, b = u ++ t -> u <> [] -> k t c = None) ->
  star_greedy p k b c = k b c.
Proof.
  intros Hp. induction b as [|x t IH]; intros H; simpl; [reflexivity|].
  rewrite Hp, IH.
  - rewrite (H [x] t eq_refl); [reflexivity | discriminate].
  - intros u t' -> Hu. apply (H (x :: u) t'); [reflexivity | discriminate].
Qed.

Lemma star_any_last (p : code_unit -> bool) (k : cont) (a b : jsstring) (c : captures) r :
  (forall x, p x = true) ->
  (forall u t, b = u ++ t -> u <> [] -> k t c = None) ->
  k b c = Some r ->
  star_greedy p k (a ++ b) c = Some r.
Proof.
  intros Hp Hfail Hk. induction a as [|x a IH]; simpl.
  - rewrite star_any_gives_back; assumption.
  - rewrite Hp, IH. reflexivity.
Qed.

Lemma star_lazy_sound (p : code_unit -> bool) (k : cont) (s : jsstring) (c : captures) r :
  star_lazy p k s c = Some r ->
  exists w s', s = w ++ s' /\ k s' c = Some r.
Proof.
  induction s as [|x t IH]; simpl; intros H.
  - destruct (k [] c) eqn:E; [|discriminate]. exists [], []. split; [reflexivity|]. congruence.
  - destruct (k (x :: t) c) eqn:E.
    + exists [], (x :: t). split; [reflexivity|]. congruence.
    + destruct (p x); [|discriminate].
      destruct (IH H) as [w [s' [-> Hk]]]. exists (x :: w), s'. auto.
Qed.

(** What a match of the element pattern has read. *)
Lemma element_sound (k : cont) (s : jsstring) (c : captures) r :
  matcher true element_re k s c = Some r ->
  exists p e1 mid p' e2 s' c',
    s = str "<" ++ p ++ str ":" ++ e1 ++ mid ++ str "</" ++ p' ++ str ":" ++ e2 ++ str ">" ++ s'
    /\ mentions 58%N p = false
    /\ ci_eq p p' /\ ci_eq e1 (str "Envelope") /\ ci_eq e2 (str "Envelope")
    /\ k s' c' = Some r.
Proof.
  unfold element_re. cbn [matcher]. intros H.
  destruct (lits true (str "<") s) as [s1|] eqn:E1; [|discriminate].
  apply lits_sound in E1. destruct E1 as [w1 [-> Hw1]].
  apply star_greedy_sound in H. destruct H as [p [s2 [-> [Hp H]]]].
  rewrite firstn_consumed in H.
  destruct (lits true (str ":Envelope") s2) as [s3|] eqn:E3; [|discriminate].
  apply lits_sound in E3. destruct E3 as [w3 [-> Hw3]].
  apply star_greedy_sound in H. destruct H as [mid [s4 [-> [_ H]]]].
  rewrite firstn_consumed in H.
  destruct (lits true (str "</") s4) as [s5|] eqn:E5; [|discriminate].
  apply lits_sound in E5. destruct E5 as [w5 [-> Hw5]].
  cbn [capture Nat.eqb] in H.
  destruct (lits true p s5) as [s6|] eqn:E6; [|discriminate].
  apply lits_sound in E6. destruct E6 as [p' [-> Hp']].
  destruct (lits true (str ":Envelope>") s6) as [s7|] eqn:E7; [|discriminate].
  apply lits_sound in E7. destruct E7 as [w7 [-> Hw7]].
  (* the literal pieces *)
  change (map (canon true) w1 = map Canonicalize [60%N]) in Hw1.
  apply ci_eq_singleton in Hw1; [|lia]. subst w1.
  change (map Canonicalize w3 = map Canonicalize [58%N] ++ map Canonicalize (str "Envelope")) in Hw3.
  apply map_eq_app in Hw3. destruct Hw3 as [c3 [e1 [-> [Hc3 He1]]]].
  apply ci_eq_singleton in Hc3; [|lia]. subst c3.
  change (map Canonicalize w5 = map Canonicalize [60%N] ++ map Canonicalize [47%N]) in Hw5.
  apply map_eq_app in Hw5. destruct Hw5 as [a5 [b5 [-> [Ha5 Hb5]]]].
  apply ci_eq_singleton in Ha5; [|lia]. apply ci_eq_singleton in Hb5; [|lia]. subst a5 b5.
  change (map Canonicalize w7
          = map Canonicalize [58%N] ++ map Canonicalize (str "Envelope") ++ map Canonicalize [62%N])
    in Hw7.
  apply map_eq_app in Hw7. destruct Hw7 as [a7 [r7 [-> [Ha7 Hr7]]]].
  apply map_eq_app in Hr7. destruct Hr7 as [e2 [b7 [-> [He2 Hb7]]]].
  apply ci_eq_singleton in Ha7; [|lia]. apply ci_eq_singleton in Hb7; [|lia]. subst a7 b7.
  exists p, e1, mid, p', e2, s7. eexists.
  split; [|split; [|split; [|split; [|split]]]].
  - repeat rewrite <- app_assoc. reflexivity.
  - apply mentions_false_iff. intros Hin.
    rewrite forallb_forall in Hp. specialize (Hp _ Hin).
    vm_compute in Hp. discriminate.
  - unfold ci_eq. symmetry. exact Hp'.
  - exact He1.
  - exact He2.
  - exact H.
Qed.

Lemma declaration_sound (k : cont) (s : jsstring) (c : captures) r :
  matcher true declaration_re k s c = Some r ->
  exists decl s', s = decl ++ s' /\ k s' c = Some r.
Proof.
  unfold declaration_re. cbn [matcher]. intros H.
  destruct (lits true (str "<?") s) as [s1|] eqn:E1; [|discriminate].
  apply lits_sound in E1. destruct E1 as [w1 [-> _]].
  apply star_greedy_sound in H. destruct H as [d [s2 [-> [_ H]]]].
  destruct (lits true (str "?>") s2) as [s3|] eqn:E3; [|discriminate].
  apply lits_sound in E3. destruct E3 as [w3 [-> _]].
  apply star_greedy_sound in H. destruct H as [ws [s4 [-> [_ H]]]].
  exists (w1 ++ d ++ w3 ++ ws), s4. split; [|exact H].
  repeat rewrite <- app_assoc. reflexivity.
Qed.

(** A match of the envelope pattern has read an open tag and a close tag
    with the same prefix. *)
Lemma envelope_sound (k : cont) (s : jsstring) (c : captures) r :
  matcher true envelope_re k s c = Some r ->
  exists decl p e1 mid p' e2 s' c',
    s = decl ++ str "<" ++ p ++ str ":" ++ e1 ++ mid
             ++ str "</" ++ p' ++ str ":" ++ e2 ++ str ">" ++ s'
    /\ mentions 58%N p = false
    /\ ci_eq p p' /\ ci_eq e1 (str "Envelope") /\ ci_eq e2 (str "Envelope")
    /\ k s' c' = Some r.
Proof.
  unfold envelope_re. cbn [matcher]. intros H.
  destruct (matcher true declaration_re
              (fun s' c' => matcher true element_re k s' c') s c) as [r'|] eqn:Ed.
  - injection H as <-. apply declaration_sound in Ed.
    destruct Ed as [decl [s1 [-> He]]]. apply element_sound in He.
    destruct He as [p [e1 [mid [p' [e2 [s' [c' [-> Hrest]]]]]]]].
    exists decl, p, e1, mid, p', e2, s', c'. split; [reflexivity | exact Hrest].
  - apply element_sound in H.
    destruct H as [p [e1 [mid [p' [e2 [s' [c' [-> Hrest]]]]]]]].
    exists [], p, e1, mid, p', e2, s', c'. split; [reflexivity | exact Hrest].
Qed.

(** [exec] answers with a place of the text where the matcher accepts. *)
Lemma exec_from_sound (ic : bool) (re : regex) (pre s : jsstring) (m : match_result) :
  exec_from ic re pre s = Some m ->
  exists skipped rest,
    s = skipped ++ rest
    /\ matcher ic re (fun s' c' => Some (s', c')) rest [] = Some (after m, groups m)
    /\ before m = rev pre ++ skipped
    /\ matched m = firstn (List.length rest - List.length (after m)) rest.
Proof.
  revert pre. induction s as [|x t IH]; intros pre H; simpl in H.
  - destruct (matcher ic re (fun s' c' => Some (s', c')) [] []) as [[s' c']|] eqn:E; [|discriminate].
    injection H as <-. exists [], []. simpl. rewrite app_nil_r. auto.
  - destruct (matcher ic re (fun s' c' => Some (s', c')) (x :: t) []) as [[s' c']|] eqn:E.
    + injection H as <-. exists [], (x :: t). simpl. rewrite app_nil_r. auto.
    + destruct (IH _ H) as [skipped [rest [-> [Hm [Hb Hmd]]]]].
      exists (x :: skipped), rest. split; [reflexivity|]. split; [exact Hm|]. split; [|exact Hmd].
      rewrite Hb. simpl. rewrite <- app_assoc. reflexivity.
Qed.



(* ------------------------------------------------------------------ *)
(** ** What the matcher finds in a body of the expected shape *)

Lemma except_class (c : code_unit) (w : jsstring) :
  (c < 65 \/ (90 < c /\ c < 97) \/ (122 < c /\ c < 128))%N ->
  mentions c w = false ->
  forallb (charset_mem true (Except c)) w = true.
Proof.
  intros Hc. unfold mentions. induction w as [|x w IH]; simpl; [reflexivity|].
  intros H. apply orb_false_iff in H. destruct H as [Hx Hw].
  rewrite (IH Hw), andb_true_r.
  rewrite (Canonicalize_plain_eqb x Hc), Hx. reflexivity.
Qed.

Lemma white_space_listed (x : code_unit) :
  is_white_space x = true -> In x white_space_chars.
Proof.
  unfold is_white_space. intros H.
  repeat match type of H with
         | (_ || _) = true => apply orb_true_iff in H; destruct H as [H|H]
         end;
    repeat match goal with
           | H : (_ && _) = true |- _ => apply andb_true_iff in H; destruct H
           | H : (_ <=? _)%N = true |- _ => apply N.leb_le in H
           | H : (_ =? _)%N = true |- _ => apply N.eqb_eq in H
           end;
    simpl; lia.
Qed.

Lemma space_class (ws : jsstring) :
  forallb is_white_space ws = true -> forallb (charset_mem true Space) ws = true.
Proof.
  induction ws as [|x ws IH]; cbn [forallb]; [reflexivity|].
  intros H. apply andb_true_iff in H. destruct H as [Hx Hws].
  rewrite (IH Hws), andb_true_r.
  change (existsb (fun a => cu_eqb (canon true a) (canon true x)) white_space_chars = true).
  apply existsb_exists. exists x. split; [apply white_space_listed; assumption|].
  unfold cu_eqb. apply N.eqb_refl.
Qed.

Lemma lt_not_space : charset_mem true Space 60%N = false.
Proof.
  destruct (charset_mem true Space 60%N) eqn:E; [|reflexivity].
  change (existsb (fun a => cu_eqb (canon true a) (canon true 60%N)) white_space_chars = true) in E.
  apply existsb_exists in E. destruct E as [a [Hin Ha]].
  apply N.eqb_eq in Ha.
  assert (a = 60%N) by (apply Canonicalize_plain; [lia | assumption]).
  subst a. simpl in Hin. repeat (destruct Hin as [Hin|Hin]; [discriminate|]). contradiction.
Qed.

Lemma declaration_complete (k : cont) (d ws t : jsstring) (c : captures) r :
  mentions 63%N d = false ->
  forallb is_white_space ws = true ->
  k (60%N :: t) c = Some r ->
  matcher true declaration_re k (str "<?" ++ d ++ str "?>" ++ ws ++ 60%N :: t) c = Some r.
Proof.
  intros Hd Hws Hk. unfold declaration_re. cbn [matcher].
  rewrite (lits_complete true (str "<?") (str "<?") _ eq_refl).
  apply star_greedy_longest.
  - apply except_class; [lia | assumption].
  - reflexivity.
  - rewrite (lits_complete true (str "?>") (str "?>") _ eq_refl).
    apply star_greedy_longest.
    + apply space_class. assumption.
    + apply lt_not_space.
    + assumption.
Qed.

Lemma declaration_absent (k : cont) (p rest : jsstring) (c : captures) :
  starts_with (str "?") p = false ->
  matcher true declaration_re k (str "<" ++ p ++ str ":" ++ rest) c = None.
Proof.
  intros Hp. unfold declaration_re. cbn [matcher].
  destruct p as [|x p]; [reflexivity|].
  change (cu_eqb 63%N x && starts_with [] p = false) in Hp.
  assert (Hx : cu_eqb 63%N x = false) by (destruct (cu_eqb 63%N x), p; simpl in Hp; congruence).
  change (str "<" ++ (x :: p) ++ str ":" ++ rest) with (60%N :: x :: p ++ str ":" ++ rest).
  change (str "<?") with [60%N; 63%N]. cbn [lits].
  change (canon true 60%N) with (Canonicalize 60%N).
  change (canon true 63%N) with (Canonicalize 63%N).
  change (canon true x) with (Canonicalize x).
  rewrite (Canonicalize_plain_eqb x (c := 63%N)) by lia.
  rewrite Hx. destruct (cu_eqb (Canonicalize 60%N) (Canonicalize 60%N)); reflexivity.
Qed.

Lemma ci_eq_cons (x : code_unit) (a b : jsstring) :
  ci_eq a b -> map (canon true) (x :: a) = map (canon true) (x :: b).
Proof. unfold ci_eq. intros H. simpl. f_equal. exact H. Qed.

Lemma ci_eq_sym (a b : jsstring) : ci_eq a b -> ci_eq b a.
Proof. unfold ci_eq. intros H. symmetry. exact H. Qed.

Lemma ci_eq_app (a b a' b' : jsstring) : ci_eq a a' -> ci_eq b b' -> ci_eq (a ++ b) (a' ++ b').
Proof. unfold ci_eq. intros H1 H2. rewrite !map_app, H1, H2. reflexivity. Qed.

(** A literal that begins with [<] matches nowhere in a text without [<]. *)
Lemma lits_lt_none (l t : jsstring) :
  mentions 60%N t = false -> lits true (60%N :: l) t = None.
Proof.
  intros H. destruct t as [|x t]; [reflexivity|].
  apply lits_mismatch.
  change (cu_eqb (Canonicalize 60%N) (Canonicalize x) = false).
  rewrite Canonicalize_plain_eqb by lia.
  unfold mentions in H. simpl in H. apply orb_false_iff in H. apply H.
Qed.

Lemma element_complete (p e1 inner p' e2 trailing : jsstring) (c : captures) :
  mentions 58%N p = false -> mentions 60%N p = false -> mentions 60%N trailing = false ->
  ci_eq p p' -> ci_eq e1 (str "Envelope") -> ci_eq e2 (str "Envelope") ->
  matcher true element_re (fun s' c' => Some (s', c'))
    (str "<" ++ p ++ str ":" ++ e1 ++ inner
       ++ str "</" ++ p' ++ str ":" ++ e2 ++ str ">" ++ trailing) c
  = Some (trailing, (2%nat, inner) :: (1%nat, p) :: c).
Proof.
  intros Hcolon Hlt Htr Hpp He1 He2.
  unfold element_re. cbn [matcher].
  rewrite (lits_complete true (str "<") (str "<") _ eq_refl).
  apply star_greedy_longest.
  { apply except_class; [lia | assumption]. }
  { reflexivity. }
  cbv beta. rewrite firstn_consumed.
  rewrite (app_assoc (str ":") e1).
  rewrite (lits_complete true (str ":Envelope") (str ":" ++ e1) _ (ci_eq_cons 58%N He1)).
  apply star_any_last.
  { reflexivity. }
  { intros u t Hb Hu. cbv beta.
    assert (Ht : mentions 60%N t = false).
    { destruct u as [|y u]; [contradiction|].
      change (str "</" ++ p' ++ str ":" ++ e2 ++ str ">" ++ trailing)
        with (60%N :: str "/" ++ p' ++ str ":" ++ e2 ++ str ">" ++ trailing) in Hb.
      injection Hb as _ Hb.
      assert (Htail : mentions 60%N (str "/" ++ p' ++ str ":" ++ e2 ++ str ">" ++ trailing) = false).
      { rewrite !mentions_app.
        rewrite <- (ci_eq_mentions (c := 60%N) (or_introl eq_refl) Hpp), Hlt.
        rewrite (ci_eq_mentions (c := 60%N) (or_introl eq_refl) He2), Htr. reflexivity. }
      assert (Hall : mentions 60%N (u ++ t) = false) by (rewrite <- Hb; exact Htail).
      rewrite mentions_app in Hall. apply orb_false_iff in Hall. apply Hall. }
    change (str "</") with (60%N :: str "/").
    rewrite (@lits_lt_none (str "/") t Ht). reflexivity. }
  cbv beta.
  rewrite (lits_complete true (str "</") (str "</") _ eq_refl).
  rewrite firstn_consumed. cbn [capture Nat.eqb].
  rewrite (lits_complete true p p' _ (ci_eq_sym Hpp)).
  rewrite (app_assoc (str ":") e2), (app_assoc (str ":" ++ e2) (str ">")).
  rewrite (lits_complete true (str ":Envelope>") ((str ":" ++ e2) ++ str ">") trailing).
  - reflexivity.
  - change (ci_eq ((str ":" ++ e2) ++ str ">") ((str ":" ++ str "Envelope") ++ str ">")).
    apply ci_eq_app; [apply ci_eq_app|]; [reflexivity | assumption | reflexivity].
Qed.

Lemma exec_from_here (ic : bool) (re : regex) (pre s s' : jsstring) (c' : captures) :
  matcher ic re (fun s' c' => Some (s', c')) s [] = Some (s', c') ->
  exec_from ic re pre s
  = Some {| before := rev pre;
            matched := firstn (List.length s - List.length s') s;
            after := s';
            groups := c' |}.
Proof. intros H. destruct s; simpl; rewrite H; reflexivity. Qed.

(** No match of the envelope pattern starts at a character other than [<]. *)
Lemma envelope_needs_lt (k : cont) (x : code_unit) (t : jsstring) (c : captures) :
  cu_eqb 60%N x = false -> matcher true envelope_re k (x :: t) c = None.
Proof.
  intros Hx.
  assert (Hm : mentions 60%N (x :: t) = false -> forall l, lits true (60%N :: l) (x :: t) = None)
    by (intros H l; apply lits_lt_none; assumption).
  assert (Hl : forall l, lits true (60%N :: l) (x :: t) = None).
  { intros l. apply lits_mismatch.
    change (cu_eqb (Canonicalize 60%N) (Canonicalize x) = false).
    rewrite Canonicalize_plain_eqb by lia. assumption. }
  unfold envelope_re, declaration_re, element_re. cbn [matcher].
  change (str "<?") with (60%N :: str "?"). change (str "<") with (60%N :: []).
  rewrite !Hl. reflexivity.
Qed.

Lemma exec_from_skip (noise pre s : jsstring) :
  mentions 60%N noise = false ->
  exec_from true envelope_re pre (noise ++ s) = exec_from true envelope_re (rev noise ++ pre) s.
Proof.
  revert pre. induction noise as [|x noise IH]; intros pre H; [reflexivity|].
  unfold mentions in H. simpl in H. apply orb_false_iff in H. destruct H as [Hx Hn].
  change ((x :: noise) ++ s) with (x :: noise ++ s).
  cbn [exec_from]. rewrite envelope_needs_lt by exact Hx.
  rewrite (IH (x :: pre) Hn). simpl. rewrite <- app_assoc. reflexivity.
Qed.

(** C6 (as amended).  Let the body, with its first comment block cut out,
    be: noise, an optional declaration [<?d?>] with white space after it, an
    open tag [<p:Envelope], any content, the close tag [</p:Envelope>], and
    trailing noise; the tag names and the prefix of the close tag may differ
    in case from those of the open tag.  When neither noise holds a [<], the
    prefix holds neither [:] nor [<], the declaration holds no [?] inside
    (and, if there is none, the prefix does not begin with [?]), the body
    normalises to exactly the text from the declaration (or the open tag)
    through the close tag. *)
Theorem handleResponse_extracts_envelope :
  forall (body noise : jsstring) (decl : option (jsstring * jsstring))
         (p e1 inner p' e2 trailing : jsstring),
    without_comment body
    = noise ++ declaration_text decl
        ++ str "<" ++ p ++ str ":" ++ e1 ++ inner
        ++ str "</" ++ p' ++ str ":" ++ e2 ++ str ">" ++ trailing ->
    mentions 60%N noise = false ->
    mentions 60%N trailing = false ->
    match decl with
    | Some (d, ws) => mentions 63%N d = false /\ forallb is_white_space ws = true
    | None => starts_with (str "?") p = false
    end ->
    mentions 58%N p = false ->
    mentions 60%N p = false ->
    ci_eq p p' -> ci_eq e1 (str "Envelope") -> ci_eq e2 (str "Envelope") ->
    handleResponse (VStr body)
    = VStr (declaration_text decl
              ++ str "<" ++ p ++ str ":" ++ e1 ++ inner
              ++ str "</" ++ p' ++ str ":" ++ e2 ++ str ">").
Proof.
  intros body noise decl p e1 inner p' e2 trailing Hbody Hnoise Htr Hdecl Hcolon Hlt Hpp He1 He2.
  unfold handleResponse, exec. rewrite Hbody. rewrite exec_from_skip by exact Hnoise.
  set (elem := str "<" ++ p ++ str ":" ++ e1 ++ inner
                 ++ str "</" ++ p' ++ str ":" ++ e2 ++ str ">").
  assert (Helem : forall c,
            matcher true element_re (fun s' c' => Some (s', c')) (elem ++ trailing) c
            = Some (trailing, (2%nat, inner) :: (1%nat, p) :: c)).
  { intros c. subst elem. repeat rewrite <- app_assoc.
    apply element_complete; assumption. }
  assert (Hmatch : exists caps,
            matcher true envelope_re (fun s' c' => Some (s', c'))
              ((declaration_text decl ++ elem) ++ trailing) []
            = Some (trailing, caps)).
  { unfold envelope_re. cbn [matcher].
    destruct decl as [[d ws]|].
    - destruct Hdecl as [Hd Hws].
      assert (Heq : (declaration_text (Some (d, ws)) ++ elem) ++ trailing
                    = str "<?" ++ d ++ str "?>" ++ ws ++ 60%N :: tl (elem ++ trailing)).
      { subst elem. unfold declaration_text. repeat rewrite <- app_assoc. reflexivity. }
      rewrite Heq. eexists.
      erewrite declaration_complete; [reflexivity | assumption | assumption |].
      change (60%N :: tl (elem ++ trailing)) with (elem ++ trailing). apply Helem.
    - change ((declaration_text None ++ elem) ++ trailing) with (elem ++ trailing).
      assert (Hnone : forall k c, matcher true declaration_re k (elem ++ trailing) c = None).
      { intros k c. subst elem. repeat rewrite <- app_assoc.
        apply declaration_absent. assumption. }
      rewrite Hnone. eexists. apply Helem. }
  destruct Hmatch as [caps Hmatch].
  replace (declaration_text decl ++ str "<" ++ p ++ str ":" ++ e1 ++ inner
             ++ str "</" ++ p' ++ str ":" ++ e2 ++ str ">" ++ trailing)
    with ((declaration_text decl ++ elem) ++ trailing)
    by (subst elem; repeat rewrite <- app_assoc; reflexivity).
  erewrite exec_from_here by exact Hmatch. cbn [matched].
  rewrite firstn_consumed. reflexivity.
Qed.

(* ================================================================== *)
(** * The default transport executor *)
(* ================================================================== *)

(** Run the plumbing of a computation: binds, promise reactions and the
    reads and writes of the world. *)
Ltac run_world :=
  repeat progress
    (unfold run, bind, then_, catch_, detach, ret, throw, settle, lift, now, do_fetch, invoke;
     cbn [initial_world called cached user_calls sent fetched ticks fst snd
          res_body res_headers text]).

(** C5.  When the exchange completes, the default executor calls back with
    a [null] error, the response (its [statusCode] the status received,
    whatever it is) and the body.  No other call follows when the callback
    returns; if the callback throws, the one further call carries what it
    threw: a status outside 2xx never makes an error argument. *)
Theorem requestWrapper_status_is_not_an_error :
  forall (options : jsobject) (f : cb_args -> result jsval) (response : IResponse),
    fetch (get options (str "uri")) (delete (str "uri") options) = Done response ->
    exists res,
      statusCode res = Some (status response)
      /\ res_body res = res_body response
      /\ (forall v,
            f (VNull, Some res, res_body response) = Ok v ->
            user_calls (run (requestWrapper options (invoke f)))
            = [(VNull, Some res, res_body response)])
      /\ (forall e,
            f (VNull, Some res, res_body response) = Throw e ->
            user_calls (run (requestWrapper options (invoke f)))
            = [(VNull, Some res, res_body response); (e, None, VUndefined)]).
Proof.
  intros options f response Hfetch.
  exists {| status := status response;
            statusText := statusText response;
            res_headers := res_headers response;
            res_body := res_body response;
            text := text response;
            statusCode := Some (status response);
            statusMessage := Some (statusText response);
            elapsedTime := Some (Date_now 1 - Date_now 0)%Z;
            requestHeaders :=
              Some (map (fun kv => (fst kv, VStr (snd kv)))
                      (header_list_of (get options (str "headers"))));
            responseHeaders :=
              Some (map (fun kv => (fst kv, VStr (snd kv))) (res_headers response)) |}.
  split; [|split; [|split]].
  3:{ intros v Hf. unfold requestWrapper. run_world.
      rewrite Hfetch. run_world.
      match goal with
      | |- context [f ?x] => replace (f x) with (@Ok jsval v) by (symmetry; exact Hf)
      end.
      reflexivity. }
  3:{ intros e Hf. unfold requestWrapper. run_world.
      rewrite Hfetch. run_world.
      match goal with
      | |- context [f ?x] => replace (f x) with (@Throw jsval e) by (symmetry; exact Hf)
      end.
      reflexivity. }
  - reflexivity.
  - reflexivity.
Qed.

(* ================================================================== *)
(** * The NTLM handshake *)
(* ================================================================== *)

(** C4.  On the NTLM path (the extra options have an [ntlm] key, the
    request is built and the probe is sent), a probe response without a
    [WWW-Authenticate] header ends the call: the caller's callback gets the
    handshake error, and that is its only call; no request is handed to the
    transport executor; the probe is the only exchange. *)
Theorem request_ntlm_without_challenge :
  forall (self : HttpClient) (uuid : nat -> jsstring) (rurl : jsstring) (data : jsval)
         (f : cb_args -> result jsval) (exheaders exoptions options : jsobject)
         (type1 : jsstring) (probe : IResponse),
    hasOwnProperty exoptions (str "ntlm") = true ->
    buildRequest uuid rurl data exheaders exoptions = Ok options ->
    createType1Message options = Done type1 ->
    fetch (VStr rurl) (probe_init type1) = Done probe ->
    headers_get (str "www-authenticate") (res_headers probe) = None ->
    user_calls (run (request self uuid rurl data f exheaders exoptions))
    = [(Error "Stage 1 NTLM handshake failed.", None, VUndefined)]
    /\ sent (run (request self uuid rurl data f exheaders exoptions)) = []
    /\ fetched (run (request self uuid rurl data f exheaders exoptions))
       = [(VStr rurl, probe_init type1)].
Proof.
  intros self uuid rurl data f exheaders exoptions options type1 probe
         Hntlm Hbuild Htype1 Hprobe Hauth.
  assert (Hrun :
    run (request self uuid rurl data f exheaders exoptions)
    = {| called := true;
         cached := match f (Error "Stage 1 NTLM handshake failed.", None, VUndefined) with
                   | Ok v => v
                   | Throw _ => VUndefined
                   end;
         user_calls := [(Error "Stage 1 NTLM handshake failed.", None, VUndefined)];
         sent := [];
         fetched := [(VStr rurl, probe_init type1)];
         ticks := 0 |}).
  { unfold request, ntlmHandshake. rewrite Hntlm, Hbuild. run_world.
    rewrite Htype1. run_world.
    change [(str "headers",
              VObj [(str "Connection", VStr (str "keep-alive"));
                    (str "Authorization", VStr type1)])]
      with (probe_init type1).
    rewrite Hprobe. run_world. rewrite Hauth. run_world.
    unfold callback. cbn [truthy Error]. unfold once. run_world.
    destruct (f (Error "Stage 1 NTLM handshake failed.", None, VUndefined)); reflexivity. }
  rewrite Hrun. repeat split.
Qed.

(* ================================================================== *)
(** * The one-shot guard *)
(* ================================================================== *)

Lemma keeps_ret {A} (a : A) : keeps_guard (ret a).
Proof. intros w. split; auto. Qed.

Lemma keeps_throw {A} (e : jsval) : keeps_guard (@throw A e).
Proof. intros w. split; auto. Qed.

Lemma keeps_lift {A} (r : result A) : keeps_guard (lift r).
Proof. intros w. split; auto. Qed.

Lemma keeps_settle {A} (o : outcome A) : keeps_guard (settle o).
Proof. destruct o; [apply keeps_ret | apply keeps_throw]. Qed.

Lemma keeps_now : keeps_guard now.
Proof. intros w. split; auto. Qed.

Lemma keeps_do_fetch (uri : jsval) (init : jsobject) : keeps_guard (do_fetch uri init).
Proof. intros w. unfold do_fetch. destruct (fetch uri init); split; auto. Qed.

Lemma keeps_bind {A B} (m : M A) (f : A -> M B) :
  keeps_guard m -> (forall a, keeps_guard (f a)) -> keeps_guard (bind m f).
Proof.
  intros Hm Hf w. unfold bind. specialize (Hm w).
  destruct (m w) as [[a|e] w']; simpl in Hm.
  - specialize (Hf a w'). tauto.
  - simpl. tauto.
Qed.

Lemma keeps_catch {A} (p : M A) (h : jsval -> M A) :
  keeps_guard p -> (forall e, keeps_guard (h e)) -> keeps_guard (catch_ p h).
Proof.
  intros Hp Hh w. unfold catch_. specialize (Hp w).
  destruct (p w) as [[a|e] w']; simpl in Hp.
  - simpl. tauto.
  - specialize (Hh e w'). tauto.
Qed.

Lemma keeps_detach {A} (p : M A) : keeps_guard p -> keeps_guard (detach p).
Proof. intros Hp w. unfold detach. simpl. apply Hp. Qed.

(** The guarded callback runs the caller's function when the guard is not
    spent, and only then. *)
Lemma keeps_once (f : cb_args -> result jsval) (a : cb_args) : keeps_guard (once f a).
Proof.
  intros w. unfold once, invoke, guard_consistent.
  destruct (called w) eqn:Hc.
  - simpl. rewrite Hc. auto.
  - destruct (f a); simpl; rewrite length_app; simpl; split; intros; (lia || discriminate).
Qed.

Lemma fires_once (f : cb_args -> result jsval) (a : cb_args) : fires (once f a).
Proof.
  intros w. unfold once, invoke.
  destruct (called w) eqn:Hc; [exact Hc|]. destruct (f a); reflexivity.
Qed.

Lemma fires_bind_l {A B} (m : M A) (f : A -> M B) :
  fires m -> (forall a, keeps_guard (f a)) -> fires (bind m f).
Proof.
  intros Hm Hf w. unfold bind. specialize (Hm w).
  destruct (m w) as [[a|e] w']; simpl in Hm.
  - apply Hf. assumption.
  - assumption.
Qed.

Lemma fires_detach {A} (p : M A) : fires p -> fires (detach p).
Proof. intros Hp w. unfold detach. simpl. apply Hp. Qed.

(** A chain [p.catch(h).then(g)] whose two reactions each spend the guard
    spends it whatever [p] settles to. *)
Lemma fires_catch_then {A B} (p : M A) (h : jsval -> M A) (g : A -> M B) :
  (forall e, fires (h e)) -> (forall a, fires (g a)) -> (forall a, keeps_guard (g a)) ->
  fires (then_ (catch_ p h) g).
Proof.
  intros Hh Hg Hk w. unfold then_, bind, catch_.
  destruct (p w) as [[a|e] w1].
  - apply Hg.
  - specialize (Hh e w1). destruct (h e w1) as [[a|e'] w2]; simpl in Hh.
    + apply Hk. assumption.
    + assumption.
Qed.

Lemma keeps_callback (cb : cb_args -> M jsval) (a : cb_args) :
  (forall x, keeps_guard (cb x)) -> keeps_guard (callback cb a).
Proof.
  intros Hcb. destruct a as [[error res] body]. unfold callback.
  destruct (truthy error); [apply keeps_bind; [apply Hcb | intros; apply keeps_ret]|].
  destruct (is_string body); [apply keeps_bind; [apply Hcb | intros; apply keeps_ret]|].
  destruct res as [r|]; [|apply keeps_throw].
  apply keeps_bind; [|intros; apply keeps_ret].
  apply keeps_detach. apply keeps_bind; [|intros; apply Hcb].
  apply keeps_catch; [|intros; apply Hcb].
  apply keeps_bind; [apply keeps_settle | intros; apply keeps_ret].
Qed.

(** The [callback] closure reaches the caller's callback on every call of
    the shape a transport is to make. *)
Lemma fires_callback (f : cb_args -> result jsval) (a : cb_args) :
  well_formed_call a = true -> fires (callback (once f) a).
Proof.
  destruct a as [[error res] body]. unfold well_formed_call, callback. intros Hwf.
  destruct (truthy error).
  { apply fires_bind_l; [apply fires_once | intros; apply keeps_ret]. }
  destruct (is_string body).
  { apply fires_bind_l; [apply fires_once | intros; apply keeps_ret]. }
  destruct res as [r|]; [|discriminate].
  apply fires_bind_l; [|intros; apply keeps_ret].
  apply fires_detach. apply fires_catch_then; intros; (apply fires_once || apply keeps_once).
Qed.

Lemma keeps_run_calls (cb : cb_args -> M jsval) (calls : list cb_args) :
  (forall a, keeps_guard (cb a)) -> keeps_guard (run_calls cb calls).
Proof.
  intros Hcb. induction calls as [|a calls IH]; simpl.
  - apply keeps_ret.
  - apply keeps_bind; [apply keeps_detach; apply Hcb | intros; apply IH].
Qed.

Lemma fires_run_calls (cb : cb_args -> M jsval) (calls : list cb_args) :
  (forall a, keeps_guard (cb a)) ->
  (forall a, well_formed_call a = true -> fires (cb a)) ->
  calls <> [] -> forallb well_formed_call calls = true ->
  fires (run_calls cb calls).
Proof.
  intros Hk Hf Hne Hwf. destruct calls as [|a calls]; [contradiction|].
  simpl in *. apply andb_true_iff in Hwf. destruct Hwf as [Ha _].
  apply fires_bind_l.
  - apply fires_detach. apply Hf. assumption.
  - intros. apply keeps_run_calls. assumption.
Qed.

Lemma keeps_requestWrapper (options : jsobject) (cb : cb_args -> M jsval) :
  (forall a, keeps_guard (cb a)) -> keeps_guard (requestWrapper options cb).
Proof.
  intros Hcb. unfold requestWrapper.
  apply keeps_bind; [apply keeps_now | intros start].
  apply keeps_bind; [|intros; apply keeps_ret].
  apply keeps_detach. apply keeps_catch; [|intros; apply Hcb].
  apply keeps_bind; [apply keeps_do_fetch | intros response].
  apply keeps_bind; [apply keeps_now | intros; apply Hcb].
Qed.

Lemma fires_bind_now {B} (f : Z -> M B) :
  (forall a, fires (f a)) -> fires (bind now f).
Proof. intros Hf w. unfold bind, now. apply Hf. Qed.

(** A chain [p.then(k).catch(h)]: when [p] rejects only with [Error]
    objects, [k] spends the guard and [h] spends it on an [Error] object,
    the guard is spent whatever [p] settles to. *)
Lemma fires_then_catch {A B} (p : M A) (k : A -> M B) (h : jsval -> M B) :
  (forall w, match fst (p w) with
             | Throw e => exists name message, e = VError name message
             | Ok _ => True
             end) ->
  (forall a, fires (k a)) ->
  (forall e, keeps_guard (h e)) ->
  (forall name message, fires (h (VError name message))) ->
  fires (catch_ (then_ p k) h).
Proof.
  intros Hp Hk Hkeep Herr w. unfold catch_, then_, bind.
  specialize (Hp w). destruct (p w) as [[a|e] w1]; simpl in Hp.
  - specialize (Hk a w1). destruct (k a w1) as [[b|e] w2]; simpl in Hk.
    + assumption.
    + apply Hkeep. assumption.
  - destruct Hp as [name [message ->]]. apply Herr.
Qed.

Lemma do_fetch_rejects_with_error (uri : jsval) (init : jsobject) :
  forall w, match fst (do_fetch uri init w) with
            | Throw e => exists name message, e = VError name message
            | Ok _ => True
            end.
Proof.
  intros w. unfold do_fetch. destruct (fetch uri init); simpl; eauto.
Qed.

(** The default executor calls back whatever the exchange comes to. *)
Lemma fires_requestWrapper (options : jsobject) (cb : cb_args -> M jsval) :
  (forall a, keeps_guard (cb a)) ->
  (forall a, well_formed_call a = true -> fires (cb a)) ->
  fires (requestWrapper options cb).
Proof.
  intros Hk Hf. unfold requestWrapper.
  apply fires_bind_now. intros start.
  apply fires_bind_l; [|intros; apply keeps_ret].
  apply fires_detach. apply fires_then_catch.
  - apply do_fetch_rejects_with_error.
  - intros response. apply fires_bind_now. intros finish. apply Hf.
    unfold well_formed_call. apply orb_true_r.
  - intros e. apply Hk.
  - intros name message. apply Hf. reflexivity.
Qed.

Lemma keeps_call_request (self : HttpClient) (options : jsobject) (cb : cb_args -> M jsval) :
  (forall a, keeps_guard (cb a)) -> keeps_guard (call_request self options cb).
Proof.
  intros Hcb w. unfold call_request.
  destruct (_request self) as [|calls returns].
  - match goal with
    | |- context [requestWrapper options cb ?w1] =>
        exact (@keeps_requestWrapper options cb Hcb w1)
    end.
  - assert (H : keeps_guard (run_calls cb (calls options) ;;; ret returns)).
    { apply keeps_bind; [apply keeps_run_calls; assumption | intros; apply keeps_ret]. }
    match goal with
    | |- context [(run_calls cb (calls options) ;;; ret returns) ?w1] => exact (H w1)
    end.
Qed.

Lemma fires_call_request (self : HttpClient) (options : jsobject) (cb : cb_args -> M jsval) :
  answers (_request self) ->
  (forall a, keeps_guard (cb a)) ->
  (forall a, well_formed_call a = true -> fires (cb a)) ->
  fires (call_request self options cb).
Proof.
  intros Hans Hk Hf w. unfold call_request.
  destruct (_request self) as [|calls returns].
  - apply (@fires_requestWrapper options cb Hk Hf).
  - destruct (Hans options) as [Hne Hwf].
    assert (H : fires (run_calls cb (calls options) ;;; ret returns)).
    { apply fires_bind_l; [apply fires_run_calls; assumption | intros; apply keeps_ret]. }
    apply H.
Qed.

(** The promise of the handshake rejects only with [Error] objects and
    leaves the guard alone. *)
Lemma handshake_promise (rurl type1 : jsstring) (authOpts : jsobject) :
  let p :=
    then_
      (then_ (do_fetch (VStr rurl) (probe_init type1))
         (fun response => ret (headers_get (str "www-authenticate") (res_headers response))))
      (fun auth =>
         match auth with
         | None | Some [] => throw (Error "Stage 1 NTLM handshake failed.")
         | Some auth => settle (createType3Message auth authOpts)
         end) in
  keeps_guard p
  /\ forall w, match fst (p w) with
               | Throw e => exists name message, e = VError name message
               | Ok _ => True
               end.
Proof.
  cbv zeta. split.
  - apply keeps_bind; [apply keeps_bind; [apply keeps_do_fetch | intros; apply keeps_ret]|].
    intros [[|c auth]|]; try apply keeps_throw. apply keeps_settle.
  - intros w. unfold then_, bind, do_fetch.
    destruct (fetch (VStr rurl) (probe_init type1)) as [response|name message];
      cbn [settle ret throw fst]; [|eauto].
    destruct (headers_get (str "www-authenticate") (res_headers response)) as [[|c auth]|];
      cbn [throw fst]; unfold Error; eauto.
    destruct (createType3Message (c :: auth) authOpts); cbn [settle ret throw fst]; eauto.
Qed.

Lemma keeps_request (self : HttpClient) (uuid : nat -> jsstring) (rurl : jsstring)
    (data : jsval) (f : cb_args -> result jsval) (exheaders exoptions : jsobject) :
  keeps_guard (request self uuid rurl data f exheaders exoptions).
Proof.
  assert (Hcb : forall a, keeps_guard (callback (once f) a))
    by (intros a; apply keeps_callback; intros; apply keeps_once).
  unfold request. apply keeps_bind; [apply keeps_lift | intros options].
  destruct (hasOwnProperty exoptions (str "ntlm")).
  - unfold ntlmHandshake.
    destruct (createType1Message options) as [type1|name message].
    + intros w. unfold bind at 1 2. cbn [settle ret fst snd].
      match goal with
      | |- context [bind (detach ?p) ?k] =>
          assert (H : keeps_guard (bind (detach p) k)); [|apply H]
      end.
      apply keeps_bind; [|intros; apply keeps_ret].
      apply keeps_detach. apply keeps_catch; [|intros; apply Hcb].
      apply keeps_bind; [apply (handshake_promise rurl type1 options)|].
      intros auth. apply keeps_call_request. assumption.
    + intros w. unfold bind. cbn [settle throw snd]. auto.
  - apply keeps_call_request. assumption.
Qed.

Lemma fires_request (self : HttpClient) (uuid : nat -> jsstring) (rurl : jsstring)
    (data : jsval) (f : cb_args -> result jsval) (exheaders exoptions options : jsobject) :
  buildRequest uuid rurl data exheaders exoptions = Ok options ->
  (hasOwnProperty exoptions (str "ntlm") = true ->
   exists type1, createType1Message options = Done type1) ->
  answers (_request self) ->
  fires (request self uuid rurl data f exheaders exoptions).
Proof.
  intros Hbuild Htype1 Hans.
  assert (Hcb : forall a, keeps_guard (callback (once f) a))
    by (intros a; apply keeps_callback; intros; apply keeps_once).
  assert (Hfire : forall a, well_formed_call a = true -> fires (callback (once f) a))
    by (intros a; apply fires_callback).
  unfold request. rewrite Hbuild. intros w. unfold bind at 1. cbn [lift].
  destruct (hasOwnProperty exoptions (str "ntlm")).
  - destruct (Htype1 eq_refl) as [type1 Ht]. unfold ntlmHandshake. rewrite Ht.
    unfold bind at 1 2. cbn [settle ret fst snd].
    match goal with
    | |- context [bind (detach ?p) ?k] =>
        assert (H : fires (bind (detach p) k)); [|apply H]
    end.
    apply fires_bind_l; [|intros; apply keeps_ret].
    apply fires_detach. apply fires_then_catch.
    + apply (handshake_promise rurl type1 options).
    + intros auth. apply fires_call_request; assumption.
    + intros e. apply Hcb.
    + intros name message. apply Hfire. reflexivity.
  - apply fires_call_request; assumption.
Qed.

(** C1 (as amended).  The caller's callback is never called twice.  When the
    request is built (and, on the NTLM path, the Type-1 message is made) and
    the transport executor answers, it is called exactly once, whichever way
    the call ends: a response, a transport error, a failed handshake, or a
    body that cannot be read. *)
Theorem request_calls_back_once :
  forall (self : HttpClient) (uuid : nat -> jsstring) (rurl : jsstring) (data : jsval)
         (f : cb_args -> result jsval) (exheaders exoptions : jsobject),
    (List.length (user_calls (run (request self uuid rurl data f exheaders exoptions))) <= 1)%nat
    /\ (forall options,
          buildRequest uuid rurl data exheaders exoptions = Ok options ->
          (hasOwnProperty exoptions (str "ntlm") = true ->
           exists type1, createType1Message options = Done type1) ->
          answers (_request self) ->
          List.length (user_calls (run (request self uuid rurl data f exheaders exoptions)))
          = 1%nat).
Proof.
  intros self uuid rurl data f exheaders exoptions.
  assert (Hcons : guard_consistent (run (request self uuid rurl data f exheaders exoptions))).
  { apply keeps_request. reflexivity. }
  unfold guard_consistent in Hcons. split.
  - destruct (called (run (request self uuid rurl data f exheaders exoptions))); lia.
  - intros options Hbuild Htype1 Hans.
    rewrite Hcons. unfold run.
    rewrite (fires_request self uuid rurl data f exheaders exoptions Hbuild Htype1 Hans initial_world).
    reflexivity.
Qed.

(* ================================================================== *)
(** * The stages of [buildRequest] *)
(* ================================================================== *)

(** [buildRequest], stage by stage. *)
Lemma buildRequest_stages (uuid : nat -> jsstring) (rurl : jsstring) (data : jsval)
    (exheaders exoptions : jsobject) :
  buildRequest uuid rurl data exheaders exoptions
  = match
      (if wants_multipart exoptions then
         match headers_get (str "content-type")
                 (headers_before_body rurl data exheaders exoptions) with
         | None => Throw (TypeError "Cannot read properties of null (reading 'indexOf')")
         | Some contentType =>
             Ok (assign (str "multipart")
                   (VArr (primary_part uuid data :: map attachment_part (attachments_of exoptions)))
                   (request_fields rurl data
                      (headers_set (str "Content-Type")
                         (match action_of contentType with
                          | Some a => multipart_content_type uuid ++ str "; " ++ a
                          | None => multipart_content_type uuid
                          end)
                         (headers_before_body rurl data exheaders exoptions))))
         end
       else
         Ok (assign (str "body") data
               (request_fields rurl data (headers_before_body rurl data exheaders exoptions))))
    with
    | Ok options => Ok (merge_exoptions [str "headers"] exoptions options)
    | Throw e => Throw e
    end.
Proof. reflexivity. Qed.




(** The header list of a request that came back: outside the multipart
    branch it is the list left by the extra headers; inside it only the
    content type differs. *)
Lemma buildRequest_header_list (uuid : nat -> jsstring) (rurl : jsstring) (data : jsval)
    (exheaders exoptions options : jsobject) (name : jsstring) :
  buildRequest uuid rurl data exheaders exoptions = Ok options ->
  wants_multipart exoptions = false
  \/ jsstring_eqb (lower name) (lower (str "Content-Type")) = false ->
  request_header options name
  = headers_get name (headers_before_body rurl data exheaders exoptions).
Proof.
  rewrite buildRequest_stages. intros Hb Hname.
  destruct (wants_multipart exoptions) eqn:Hw.
  - destruct Hname as [Hname|Hname]; [discriminate Hname|].
    destruct (headers_get (str "content-type")
                (headers_before_body rurl data exheaders exoptions)) as [ct|]; [|discriminate Hb].
    injection Hb as <-.
    erewrite merge_exoptions_header_list by reflexivity.
    rewrite headers_get_set, Hname. reflexivity.
  - injection Hb as <-.
    erewrite merge_exoptions_header_list by reflexivity. reflexivity.
Qed.

(** What the merge of the extra options starts from. *)
Lemma buildRequest_before_merge (uuid : nat -> jsstring) (rurl : jsstring) (data : jsval)
    (exheaders exoptions options : jsobject) :
  buildRequest uuid rurl data exheaders exoptions = Ok options ->
  exists (h : header_list) (k : jsstring) (v : jsval),
    (k = str "body" \/ k = str "multipart")
    /\ options = merge_exoptions [str "headers"] exoptions (assign k v (request_fields rurl data h)).
Proof.
  rewrite buildRequest_stages. intros Hb.
  destruct (wants_multipart exoptions).
  - destruct (headers_get (str "content-type")
                (headers_before_body rurl data exheaders exoptions)) as [ct|]; [|discriminate Hb].
    injection Hb as <-. eexists. exists (str "multipart"). eexists. split; [right|]; reflexivity.
  - injection Hb as <-. eexists. exists (str "body"). eexists. split; [left|]; reflexivity.
Qed.

(** X2.  The request line.  Unless the extra options have a key of the same
    name, the request has the URL it was asked for, follows redirects, and
    its method is [POST] exactly when the payload is truthy: an absent
    payload and the empty string both make a [GET]. *)
Theorem buildRequest_request_line :
  forall (uuid : nat -> jsstring) (rurl : jsstring) (data : jsval)
         (exheaders exoptions options : jsobject),
    buildRequest uuid rurl data exheaders exoptions = Ok options ->
    (hasOwnProperty exoptions (str "uri") = false -> get options (str "uri") = VStr rurl)
    /\ (hasOwnProperty exoptions (str "method") = false ->
        get options (str "method") = VStr (if truthy data then str "POST" else str "GET"))
    /\ (hasOwnProperty exoptions (str "redirect") = false ->
        get options (str "redirect") = VStr (str "follow")).
Proof.
  intros uuid rurl data exheaders exoptions options Hb.
  destruct (buildRequest_before_merge _ _ _ _ _ Hb) as [h [k [v [Hk ->]]]].
  repeat split; intros Hno; rewrite merge_exoptions_other by discriminate; rewrite Hno;
    destruct Hk as [-> | ->]; reflexivity.
Qed.

(** X3.  The defaults.  Each of the five fixed headers is on the request with
    its default value unless the extra headers name it; [Connection] is
    [keep-alive] exactly when the [forever] option is truthy. *)
Theorem buildRequest_default_headers :
  forall (uuid : nat -> jsstring) (rurl : jsstring) (data : jsval)
         (exheaders exoptions options : jsobject) (name value : jsstring),
    buildRequest uuid rurl data exheaders exoptions = Ok options ->
    In (name, value)
       [ (str "User-Agent", str "node-soap/" ++ VERSION);
         (str "Accept",
           str "text/html,application/xhtml+xml,application/xml,text/xml;q=0.9,*/*;q=0.8");
         (str "Accept-Encoding", str "none");
         (str "Accept-Charset", str "utf-8");
         (str "Connection",
           if truthy (get exoptions (str "forever")) then str "keep-alive" else str "close") ] ->
    has_header name exheaders = false ->
    request_header options name = Some value.
Proof.
  intros uuid rurl data exheaders exoptions options name value Hb Hin Hno.
  assert (Hbase : jsstring_eqb (lower name) (lower (str "Content-Type")) = false
                  /\ headers_get name
                       (headers_set (str "Content-Type") (str "application/x-www-form-urlencoded")
                          (headers_set (str "Content-Length")
                             (dec (byteLength (match data with VStr s => s | _ => [] end)))
                             (base_headers exoptions (url_parse rurl))))
                     = Some value
                  /\ headers_get name (base_headers exoptions (url_parse rurl)) = Some value).
  { simpl in Hin.
    repeat (destruct Hin as [Hin|Hin];
            [injection Hin as <- <-; repeat split; reflexivity|]).
    contradiction. }
  destruct Hbase as [Hname [Hplain Hbase]].
  rewrite (buildRequest_header_list _ _ _ _ _ name Hb (or_intror Hname)).
  unfold headers_before_body. rewrite apply_exheaders_keeps by assumption.
  destruct (plain_branch data exoptions); assumption.
Qed.

Lemma apply_exheaders_app (l1 l2 : jsobject) (h : header_list) :
  apply_exheaders (l1 ++ l2) h = apply_exheaders l2 (apply_exheaders l1 h).
Proof. unfold apply_exheaders. apply fold_left_app. Qed.

Lemma has_header_lower (name name' : jsstring) (o : jsobject) :
  lower name' = lower name -> has_header name' o = has_header name o.
Proof. intros H. unfold has_header. rewrite H. reflexivity. Qed.

(** X4.  The extra headers win.  An extra header is on the request with the
    value of its last entry, whatever the case of its name and whatever the
    request held under that name; the one exception is the content type in
    the multipart branch. *)
Theorem buildRequest_extra_header_wins :
  forall (uuid : nat -> jsstring) (rurl : jsstring) (data : jsval)
         (exheaders exoptions options : jsobject)
         (before after : jsobject) (name name' : jsstring) (value : jsval),
    buildRequest uuid rurl data exheaders exoptions = Ok options ->
    exheaders = before ++ (name, value) :: after ->
    has_header name after = false ->
    lower name' = lower name ->
    wants_multipart exoptions = false
    \/ jsstring_eqb (lower name) (lower (str "Content-Type")) = false ->
    request_header options name' = Some (to_string value).
Proof.
  intros uuid rurl data exheaders exoptions options before after name name' value
         Hb Hex Hafter Hcase Hct.
  rewrite (buildRequest_header_list _ _ _ _ _ name' Hb)
    by (rewrite Hcase; exact Hct).
  unfold headers_before_body. rewrite Hex.
  change (before ++ (name, value) :: after) with (before ++ [(name, value)] ++ after).
  rewrite !apply_exheaders_app.
  rewrite apply_exheaders_keeps by (rewrite (@has_header_lower name name' after Hcase); exact Hafter).
  unfold apply_exheaders at 1. cbn [fold_left fst snd].
  rewrite headers_get_set, Hcase, jsstring_eqb_refl. reflexivity.
Qed.


Lemma lookup_omitted (k : jsstring) (keys : list jsstring) (o : jsobject) :
  existsb (jsstring_eqb k) keys = true -> lookup k (omit keys o) = None.
Proof.
  intros Hk. induction o as [|[k' v] o IH]; simpl; [reflexivity|].
  destruct (existsb (jsstring_eqb k') keys) eqn:E; simpl; [assumption|].
  destruct (jsstring_eqb k k') eqn:E'; [|assumption].
  apply jsstring_eqb_eq in E'. subst. congruence.
Qed.

(** X6.  The extra options pass through.  Every extra option other than
    [attachments] and [headers] is a property of the request with the value
    given, the flags [forceMTOM], [forever] and [ntlm] like any other; the
    attachments themselves are never a property of the request. *)
Theorem buildRequest_options_pass_through :
  forall (uuid : nat -> jsstring) (rurl : jsstring) (data : jsval)
         (exheaders exoptions options : jsobject),
    buildRequest uuid rurl data exheaders exoptions = Ok options ->
    (forall k, k <> str "headers" -> k <> str "attachments" ->
               hasOwnProperty exoptions k = true -> get options k = get exoptions k)
    /\ get options (str "attachments") = VUndefined.
Proof.
  intros uuid rurl data exheaders exoptions options Hb.
  destruct (buildRequest_before_merge _ _ _ _ _ Hb) as [h [k0 [v0 [Hk0 ->]]]].
  split.
  - intros k Hh Ha Hk. rewrite merge_exoptions_other by assumption. rewrite Hk. reflexivity.
  - unfold merge_exoptions. rewrite merge_loop_other by discriminate.
    rewrite lookup_omitted by reflexivity.
    destruct Hk0 as [-> | ->]; reflexivity.
Qed.








(* ================================================================== *)
(** * What [handleResponse] returns *)
(* ================================================================== *)

Lemma lits_exact (l s s' : jsstring) : lits false l s = Some s' -> s = l ++ s'.
Proof.
  intros H. apply lits_sound in H. destruct H as [w [-> Hw]].
  f_equal. rewrite <- (map_id w), <- (map_id l). exact Hw.
Qed.

Lemma lits_exact_app (l s' : jsstring) : lits false l (l ++ s') = Some s'.
Proof. apply lits_complete. reflexivity. Qed.

Lemma lits_exact_fail (l s : jsstring) : starts_with l s = false -> lits false l s = None.
Proof.
  revert s. induction l as [|a l IH]; intros [|x t] H; simpl in *; try discriminate; [reflexivity|].
  destruct (cu_eqb a x); [apply IH; exact H | reflexivity].
Qed.

(** What a match of the comment pattern has read. *)
Lemma comment_sound (k : cont) (s : jsstring) (c : captures) r :
  matcher false comment_re k s c = Some r ->
  exists w s', s = str "<!--" ++ w ++ str "-->" ++ s' /\ k s' c = Some r.
Proof.
  unfold comment_re. cbn [matcher]. intros H.
  destruct (lits false (str "<!--") s) as [s1|] eqn:E1; [|discriminate].
  apply lits_exact in E1. subst s.
  apply star_lazy_sound in H. destruct H as [w [s2 [-> H]]].
  destruct (lits false (str "-->") s2) as [s3|] eqn:E3; [|discriminate].
  apply lits_exact in E3. subst s2.
  exists w, s3. split; [reflexivity | exact H].
Qed.

(** A match splits the text into what [exec] reports. *)
Lemma exec_from_splits (ic : bool) (re : regex) (pre s : jsstring) (m : match_result) :
  (forall rest s' c', matcher ic re (fun s' c' => Some (s', c')) rest [] = Some (s', c') ->
                      exists w, rest = w ++ s') ->
  exec_from ic re pre s = Some m ->
  rev pre ++ s = before m ++ matched m ++ after m
  /\ exists skipped, s = skipped ++ matched m ++ after m
     /\ matcher ic re (fun s' c' => Some (s', c')) (matched m ++ after m) []
        = Some (after m, groups m).
Proof.
  intros Hcons H. apply exec_from_sound in H.
  destruct H as [skipped [rest [-> [Hm [Hb Hmd]]]]].
  destruct (Hcons _ _ _ Hm) as [w ->].
  rewrite firstn_consumed in Hmd. rewrite Hb, Hmd.
  split; [rewrite <- app_assoc; reflexivity|].
  exists skipped. split; [reflexivity | exact Hm].
Qed.

Lemma comment_consumes (rest s' : jsstring) (c' : captures) :
  matcher false comment_re (fun s' c' => Some (s', c')) rest [] = Some (s', c') ->
  exists w, rest = w ++ s'.
Proof.
  intros H. apply comment_sound in H. destruct H as [w [s1 [-> Hk]]].
  injection Hk as -> _. exists (str "<!--" ++ w ++ str "-->").
  repeat rewrite <- app_assoc. reflexivity.
Qed.

Lemma envelope_consumes (rest s' : jsstring) (c' : captures) :
  matcher true envelope_re (fun s' c' => Some (s', c')) rest [] = Some (s', c') ->
  exists w, rest = w ++ s'.
Proof.
  intros H. apply envelope_sound in H.
  destruct H as [decl [p [e1 [mid [p' [e2 [s1 [c1 [-> [_ [_ [_ [_ Hk]]]]]]]]]]]]].
  injection Hk as -> _.
  exists (decl ++ str "<" ++ p ++ str ":" ++ e1 ++ mid ++ str "</" ++ p' ++ str ":" ++ e2 ++ str ">").
  repeat rewrite <- app_assoc. reflexivity.
Qed.

(** Cutting the comment out removes one block [<!-- ... -->], or nothing. *)
Lemma without_comment_sound (body : jsstring) :
  without_comment body = body
  \/ exists a c b,
       body = a ++ str "<!--" ++ c ++ str "-->" ++ b /\ without_comment body = a ++ b.
Proof.
  unfold without_comment, replace_first_empty.
  destruct (exec false comment_re body) as [m|] eqn:E; [right | left; reflexivity].
  unfold exec in E.
  destruct (@exec_from_splits _ _ _ _ _ comment_consumes E) as [Hs [skipped [_ Hm]]].
  simpl in Hs. apply comment_sound in Hm. destruct Hm as [w [s1 [Hw Hk]]].
  injection Hk as Hk. subst s1.
  exists (before m), w, (after m). split; [|reflexivity].
  rewrite Hs, Hw. reflexivity.
Qed.

Lemma without_comment_length (body : jsstring) :
  (List.length (without_comment body) <= List.length body)%nat.
Proof.
  destruct (without_comment_sound body) as [-> | [a [c [b [Hb ->]]]]]; [lia|].
  rewrite Hb, !length_app. lia.
Qed.

(** A match of the envelope pattern is a part of the text, of the shape of
    an envelope. *)
Lemma exec_envelope_sound (s : jsstring) (m : match_result) :
  exec true envelope_re s = Some m ->
  s = before m ++ matched m ++ after m /\ envelope_shaped (matched m).
Proof.
  unfold exec. intros E.
  destruct (@exec_from_splits _ _ _ _ _ envelope_consumes E) as [Hs [skipped [_ Hm]]].
  split; [exact Hs|].
  apply envelope_sound in Hm.
  destruct Hm as [decl [p [e1 [mid [p' [e2 [s1 [c1 [Hw [Hp [Hpp [He1 [He2 Hk]]]]]]]]]]]]].
  injection Hk as Hk _. subst s1.
  exists decl, p, e1, mid, p', e2. split; [|auto].
  apply (app_inv_tail (after m)). rewrite Hw. repeat rewrite <- app_assoc. reflexivity.
Qed.


(** X10.  The result for a text is a text, never longer than the body. *)
Theorem handleResponse_never_longer :
  forall body : jsstring,
    exists r,
      handleResponse (VStr body) = VStr r
      /\ (List.length r <= List.length body)%nat.
Proof.
  intros body. unfold handleResponse.
  destruct (exec true envelope_re (without_comment body)) as [m|] eqn:E.
  - exists (matched m). split; [reflexivity|].
    destruct (@exec_envelope_sound _ _ E) as [Hs _].
    pose proof (without_comment_length body) as Hlen.
    rewrite Hs, !length_app in Hlen. lia.
  - exists body. split; [reflexivity | lia].
Qed.

(** X11.  The comment pattern needs both markers: a body that holds no [<!--],
    or no [-->], is searched for the envelope as it is. *)
Theorem without_comment_needs_both_markers :
  forall body : jsstring,
    contains (str "<!--") body = false \/ contains (str "-->") body = false ->
    without_comment body = body.
Proof.
  intros body H.
  destruct (without_comment_sound body) as [Hsame | [a [c [b [Hb _]]]]]; [exact Hsame|].
  exfalso. subst body. destruct H as [H|H].
  - rewrite (contains_app_r _ a _ (contains_at_start _ _)) in H. discriminate H.
  - rewrite (contains_app_r _ a _
               (contains_app_r _ (str "<!--") _
                  (contains_app_r _ c _ (contains_at_start _ _)))) in H.
    discriminate H.
Qed.

Lemma contains_cons (pat : jsstring) (x : code_unit) (s : jsstring) :
  contains pat (x :: s) = starts_with pat (x :: s) || contains pat s.
Proof. reflexivity. Qed.

Lemma contains_head (pat s : jsstring) :
  contains pat s = false -> starts_with pat s = false.
Proof.
  destruct s as [|x s]; simpl; intros H; apply orb_false_iff in H; exact (proj1 H).
Qed.

Lemma contains_suffix (pat a b : jsstring) :
  contains pat (a ++ b) = false -> contains pat b = false.
Proof.
  intros H. destruct (contains pat b) eqn:E; [|reflexivity].
  rewrite (contains_app_r pat a b E) in H. discriminate H.
Qed.

(** Whether a text starts with a pattern is settled by its first
    characters, as many as the pattern has. *)
Lemma starts_with_short (pat u v : jsstring) :
  (List.length pat <= List.length u)%nat ->
  starts_with pat (u ++ v) = starts_with pat u.
Proof.
  revert u. induction pat as [|a pat IH]; intros [|x u] H; simpl in *; try reflexivity; try lia.
  rewrite IH by lia. reflexivity.
Qed.

(** The lazy repetition stops at the first place where what follows is
    accepted. *)
Lemma star_lazy_first (p : code_unit -> bool) (k : cont) (w s' : jsstring) (c : captures) r :
  (forall x, p x = true) ->
  (forall u t, w = u ++ t -> t <> [] -> k (t ++ s') c = None) ->
  k s' c = Some r ->
  star_lazy p k (w ++ s') c = Some r.
Proof.
  intros Hp. induction w as [|x w IH]; intros Hfail Hk.
  - destruct s'; simpl; rewrite Hk; reflexivity.
  - change ((x :: w) ++ s') with (x :: w ++ s'). cbn [star_lazy].
    pose proof (Hfail [] (x :: w) eq_refl ltac:(discriminate)) as H0.
    change ((x :: w) ++ s') with (x :: w ++ s') in H0.
    rewrite H0, Hp. apply IH; [|exact Hk].
    intros u t -> Ht. apply (Hfail (x :: u) t); [reflexivity | exact Ht].
Qed.

(** The places the search passes over. *)
Lemma exec_from_passes (ic : bool) (re : regex) (a pre s : jsstring) :
  (forall u t, a = u ++ t -> t <> [] ->
               matcher ic re (fun s' c' => Some (s', c')) (t ++ s) [] = None) ->
  exec_from ic re pre (a ++ s) = exec_from ic re (rev a ++ pre) s.
Proof.
  revert pre. induction a as [|x a IH]; intros pre H; [reflexivity|].
  change ((x :: a) ++ s) with (x :: a ++ s). cbn [exec_from].
  pose proof (H [] (x :: a) eq_refl ltac:(discriminate)) as H0.
  change ((x :: a) ++ s) with (x :: a ++ s) in H0.
  rewrite H0, (IH (x :: pre)).
  - simpl. rewrite <- app_assoc. reflexivity.
  - intros u t -> Ht. apply (H (x :: u) t); [reflexivity | exact Ht].
Qed.

(** X12.  The comment block that is cut out.  It is the first one: when [<!--]
    does not occur before the block and [-->] does not occur inside it, the
    body [a <!-- c --> b] is searched for the envelope as [a b]; whatever
    [b] holds, later comment blocks included, stays. *)
Theorem without_comment_cuts_first_block :
  forall a c b : jsstring,
    contains (str "<!--") (a ++ str "<!-") = false ->
    contains (str "-->") (c ++ str "--") = false ->
    without_comment (a ++ str "<!--" ++ c ++ str "-->" ++ b) = a ++ b.
Proof.
  intros a c b Ha Hc.
  unfold without_comment, replace_first_empty, exec.
  rewrite exec_from_passes.
  - assert (Hm : matcher false comment_re (fun s' c' => Some (s', c'))
                   (str "<!--" ++ c ++ str "-->" ++ b) [] = Some (b, [])).
    { unfold comment_re. cbn [matcher]. rewrite lits_exact_app.
      apply star_lazy_first; [reflexivity | | rewrite lits_exact_app; reflexivity].
      intros u t -> Ht.
      rewrite lits_exact_fail; [reflexivity|].
      rewrite <- app_assoc in Hc. apply contains_suffix in Hc. apply contains_head in Hc.
      change (str "-->" ++ b) with (str "--" ++ str ">" ++ b).
      rewrite app_assoc, starts_with_short; [exact Hc|].
      destruct t; [exfalso; apply Ht; reflexivity|]. simpl. rewrite length_app. simpl. lia. }
    rewrite (@exec_from_here _ _ _ _ _ _ Hm). cbn [before after].
    rewrite app_nil_r, rev_involutive. reflexivity.
  - intros u t -> Ht.
    unfold comment_re. cbn [matcher].
    rewrite lits_exact_fail; [reflexivity|].
    rewrite <- app_assoc in Ha. apply contains_suffix in Ha. apply contains_head in Ha.
    change (str "<!--" ++ c ++ str "-->" ++ b) with (str "<!-" ++ str "-" ++ c ++ str "-->" ++ b).
    rewrite app_assoc, starts_with_short; [exact Ha|].
    destruct t; [exfalso; apply Ht; reflexivity|]. simpl. rewrite length_app. simpl. lia.
Qed.

(* ================================================================== *)
(** * The callback closure of [request] *)
(* ================================================================== *)

Lemma once_spent (f : cb_args -> result jsval) (a : cb_args) (w : world) :
  called w = true -> once f a w = (Ok (cached w), w).
Proof. intros H. unfold once. rewrite H. reflexivity. Qed.

(** Once the guard is spent the closure changes nothing. *)
Lemma callback_spent (f : cb_args -> result jsval) (a : cb_args) (w : world) :
  called w = true -> snd (callback (once f) a w) = w.
Proof.
  intros H. destruct a as [[error res] body]. unfold callback.
  destruct (truthy error); [unfold bind; rewrite once_spent by exact H; reflexivity|].
  destruct (is_string body); [unfold bind; rewrite once_spent by exact H; reflexivity|].
  destruct res as [r|]; [|reflexivity].
  run_world. destruct (text r); run_world; repeat rewrite once_spent by exact H; reflexivity.
Qed.


(** What the first call of the closure hands to the caller. *)
Lemma callback_first_error (f : cb_args -> result jsval) (error : jsval) (res : option IResponse)
    (body : jsval) (w : world) :
  called w = false -> truthy error = true ->
  exists v,
    snd (callback (once f) (error, res, body) w)
    = {| called := true; cached := v; user_calls := user_calls w ++ [(error, res, body)];
         sent := sent w; fetched := fetched w; ticks := ticks w |}.
Proof.
  intros Hw He. unfold callback. rewrite He. unfold once. run_world. rewrite Hw. run_world.
  destruct (f (error, res, body)); eexists; reflexivity.
Qed.

Lemma callback_first_string (f : cb_args -> result jsval) (error : jsval) (res : option IResponse)
    (body : jsval) (w : world) :
  called w = false -> truthy error = false -> is_string body = true ->
  exists v,
    snd (callback (once f) (error, res, body) w)
    = {| called := true; cached := v;
         user_calls := user_calls w ++ [(VNull, res, handleResponse body)];
         sent := sent w; fetched := fetched w; ticks := ticks w |}.
Proof.
  intros Hw He Hb. unfold callback. rewrite He, Hb. unfold once. run_world. rewrite Hw. run_world.
  destruct (f (VNull, res, handleResponse body)); eexists; reflexivity.
Qed.

Lemma callback_first_text (f : cb_args -> result jsval) (error : jsval) (r : IResponse)
    (body : jsval) (w : world) :
  called w = false -> truthy error = false -> is_string body = false ->
  exists v,
    snd (callback (once f) (error, Some r, body) w)
    = {| called := true; cached := v;
         user_calls :=
           user_calls w
           ++ [match text r with
               | Done t => (VNull, Some r, handleResponse (VStr t))
               | Failed name message => (VError name message, Some r, VUndefined)
               end];
         sent := sent w; fetched := fetched w; ticks := ticks w |}.
Proof.
  intros Hw He Hb. unfold callback. rewrite He, Hb. unfold once. run_world.
  destruct (text r) as [t|name message]; run_world; rewrite Hw; run_world.
  - destruct (f (VNull, Some r, handleResponse (VStr t))); eexists; reflexivity.
  - destruct (f (VError name message, Some r, VUndefined)); run_world; eexists; reflexivity.
Qed.

(* ================================================================== *)
(** * What goes on the wire *)
(* ================================================================== *)

Lemma preserves_ret {A B} (field : world -> B) (a : A) : preserves field (ret a).
Proof. intros w. reflexivity. Qed.

Lemma preserves_bind {A B C} (field : world -> C) (m : M A) (f : A -> M B) :
  preserves field m -> (forall a, preserves field (f a)) -> preserves field (bind m f).
Proof.
  intros Hm Hf w. unfold bind. specialize (Hm w).
  destruct (m w) as [[a|e] w']; cbn [snd] in *; [rewrite Hf|]; exact Hm.
Qed.

Lemma preserves_catch {A C} (field : world -> C) (p : M A) (h : jsval -> M A) :
  preserves field p -> (forall e, preserves field (h e)) -> preserves field (catch_ p h).
Proof.
  intros Hp Hh w. unfold catch_. specialize (Hp w).
  destruct (p w) as [[a|e] w']; cbn [snd] in *; [|rewrite Hh]; exact Hp.
Qed.

Lemma preserves_detach {A C} (field : world -> C) (p : M A) :
  preserves field p -> preserves field (detach p).
Proof. intros Hp w. apply Hp. Qed.

Lemma preserves_settle {A C} (field : world -> C) (o : outcome A) : preserves field (settle o).
Proof. intros w. destruct o; reflexivity. Qed.

Lemma wire_invoke (f : cb_args -> result jsval) (a : cb_args) : preserves wire (invoke f a).
Proof. intros w. reflexivity. Qed.

Lemma wire_once (f : cb_args -> result jsval) (a : cb_args) : preserves wire (once f a).
Proof.
  intros w. unfold once. destruct (called w); [reflexivity|].
  unfold invoke. destruct (f a); reflexivity.
Qed.

Lemma wire_callback (cb : cb_args -> M jsval) (a : cb_args) :
  (forall x, preserves wire (cb x)) -> preserves wire (callback cb a).
Proof.
  intros Hcb. destruct a as [[error res] body]. unfold callback.
  destruct (truthy error);
    [apply preserves_bind; [apply Hcb | intros; apply preserves_ret]|].
  destruct (is_string body);
    [apply preserves_bind; [apply Hcb | intros; apply preserves_ret]|].
  destruct res as [r|]; [|intros w; reflexivity].
  apply preserves_bind; [|intros; apply preserves_ret].
  apply preserves_detach. unfold then_. apply preserves_bind; [|intros; apply Hcb].
  apply preserves_catch; [|intros; apply Hcb].
  apply preserves_bind; [apply preserves_settle | intros; apply preserves_ret].
Qed.

Lemma wire_run_calls (cb : cb_args -> M jsval) (calls : list cb_args) :
  (forall x, preserves wire (cb x)) -> preserves wire (run_calls cb calls).
Proof.
  intros Hcb. induction calls as [|a rest IH]; [apply preserves_ret|].
  cbn [run_calls]. apply preserves_bind; [apply preserves_detach, Hcb | intros; exact IH].
Qed.

(** The default executor starts one exchange, for the request without its
    [uri], and hands nothing to any executor. *)
Lemma requestWrapper_wire (options : jsobject) (cb : cb_args -> M jsval) (w : world) :
  (forall x, preserves wire (cb x)) ->
  fst (requestWrapper options cb w) = Ok (reported_headers options)
  /\ sent (snd (requestWrapper options cb w)) = sent w
  /\ fetched (snd (requestWrapper options cb w))
     = fetched w ++ [(get options (str "uri"), delete (str "uri") options)].
Proof.
  intros Hcb.
  assert (Hs : forall x w0, sent (snd (cb x w0)) = sent w0)
    by (intros x w0; exact (f_equal (fun t => fst (fst t)) (Hcb x w0))).
  assert (Hf : forall x w0, fetched (snd (cb x w0)) = fetched w0)
    by (intros x w0; exact (f_equal (fun t => snd (fst t)) (Hcb x w0))).
  unfold requestWrapper. run_world.
  destruct (fetch (get options (str "uri")) (delete (str "uri") options)) as [response|name message];
    run_world.
  - match goal with
    | |- context [cb ?x ?w0] =>
        pose proof (Hs x w0) as Hs1; pose proof (Hf x w0) as Hf1;
        destruct (cb x w0) as [[v|e] w1]
    end; cbn [fst snd sent fetched] in *.
    + repeat split; assumption.
    + rewrite Hs, Hf. repeat split; assumption.
  - rewrite Hs, Hf. repeat split.
Qed.

Lemma call_request_wire (self : HttpClient) (options : jsobject) (cb : cb_args -> M jsval)
    (w : world) :
  (forall x, preserves wire (cb x)) ->
  fst (call_request self options cb w)
  = Ok (match _request self with
        | DefaultHandler => reported_headers options
        | CustomHandler _ returns => returns
        end)
  /\ sent (snd (call_request self options cb w)) = sent w ++ [options]
  /\ fetched (snd (call_request self options cb w))
     = fetched w ++ match _request self with
                    | DefaultHandler => [(get options (str "uri"), delete (str "uri") options)]
                    | CustomHandler _ _ => []
                    end.
Proof.
  intros Hcb. unfold call_request. destruct (_request self) as [|calls returns].
  - match goal with
    | |- context [requestWrapper options cb ?w1] =>
        destruct (@requestWrapper_wire options cb w1 Hcb) as [H1 [H2 H3]]
    end.
    rewrite H1, H2, H3. repeat split.
  - pose proof (@wire_run_calls cb (calls options) Hcb) as Hrun.
    unfold bind, ret.
    match goal with
    | |- context [run_calls cb (calls options) ?w1] =>
        pose proof (Hrun w1) as Hw; destruct (run_calls cb (calls options) w1) as [[u|e] w2] eqn:E
    end.
    + unfold wire in Hw. cbn [fst snd sent fetched ticks] in *. injection Hw as -> -> _.
      rewrite app_nil_r. repeat split.
    + exfalso. clear Hw. revert E. generalize (calls options). intros l.
      match goal with |- run_calls cb l ?w1 = _ -> _ => generalize w1 end.
      induction l as [|a rest IH]; intros w1 E; [discriminate E|].
      cbn [run_calls] in E. unfold bind, detach in E. cbn [fst snd] in E. exact (IH _ E).
Qed.

(* ================================================================== *)
(** * The default executor, further *)
(* ================================================================== *)




(** X14.  A failed exchange.  When [fetch] rejects, the callback is called once,
    with the reason of the rejection as its only argument; the headers have
    been returned all the same. *)
Theorem requestWrapper_transport_failure :
  forall (options : jsobject) (f : cb_args -> result jsval) (name message : jsstring),
    fetch (get options (str "uri")) (delete (str "uri") options) = Failed name message ->
    user_calls (run (requestWrapper options (invoke f)))
    = [(VError name message, None, VUndefined)]
    /\ fst (requestWrapper options (invoke f) initial_world) = Ok (reported_headers options).
Proof.
  intros options f name message Hfetch. split.
  - unfold requestWrapper. run_world. rewrite Hfetch. run_world. reflexivity.
  - exact (proj1 (@requestWrapper_wire options (invoke f) initial_world (wire_invoke f))).
Qed.

(* ================================================================== *)
(** * [request], path by path *)
(* ================================================================== *)

(** X15.  A request that cannot be made.  When [buildRequest] throws, or, on the
    NTLM path, the Type-1 message cannot be created, [request] throws the
    same error at once and nothing else has happened: no callback, no
    exchange, nothing handed to the executor. *)
Theorem request_construction_failure :
  forall (self : HttpClient) (uuid : nat -> jsstring) (rurl : jsstring) (data : jsval)
         (f : cb_args -> result jsval) (exheaders exoptions : jsobject) (e : jsval) (w : world),
    buildRequest uuid rurl data exheaders exoptions = Throw e
    \/ (hasOwnProperty exoptions (str "ntlm") = true
        /\ exists options name message,
             buildRequest uuid rurl data exheaders exoptions = Ok options
             /\ createType1Message options = Failed name message
             /\ e = VError name message) ->
    request self uuid rurl data f exheaders exoptions w = (Throw e, w).
Proof.
  intros self uuid rurl data f exheaders exoptions e w
         [Hb | [Hntlm [options [name [message [Hb [Ht ->]]]]]]].
  - unfold request. rewrite Hb. reflexivity.
  - unfold request, ntlmHandshake. rewrite Hb, Hntlm. run_world. rewrite Ht. reflexivity.
Qed.

(** X16.  The plain path.  Without an [ntlm] option the request built is handed
    to the executor as it is, once; the default executor starts the one
    exchange and [request] returns the request headers; a replacement
    executor starts none and [request] returns what it returns. *)
Theorem request_dispatch :
  forall (self : HttpClient) (uuid : nat -> jsstring) (rurl : jsstring) (data : jsval)
         (f : cb_args -> result jsval) (exheaders exoptions options : jsobject),
    hasOwnProperty exoptions (str "ntlm") = false ->
    buildRequest uuid rurl data exheaders exoptions = Ok options ->
    sent (run (request self uuid rurl data f exheaders exoptions)) = [options]
    /\ fetched (run (request self uuid rurl data f exheaders exoptions))
       = match _request self with
         | DefaultHandler => [(get options (str "uri"), delete (str "uri") options)]
         | CustomHandler _ _ => []
         end
    /\ fst (request self uuid rurl data f exheaders exoptions initial_world)
       = Ok (match _request self with
             | DefaultHandler => reported_headers options
             | CustomHandler _ returns => returns
             end).
Proof.
  intros self uuid rurl data f exheaders exoptions options Hntlm Hb.
  unfold run, request. rewrite Hntlm, Hb. unfold bind, lift.
  destruct (@call_request_wire self options (callback (once f)) initial_world
              (fun x => @wire_callback (once f) x (wire_once f))) as [H1 [H2 H3]].
  rewrite H1, H2, H3. repeat split.
Qed.


(** X18.  The NTLM path, when the handshake fails otherwise than by a missing
    challenge: the probe does not complete, the challenge header is there
    but empty, or the Type-3 message cannot be created.  Each time the
    caller's callback gets that error as its one call, and no request is
    handed to the executor. *)
Theorem request_ntlm_handshake_failure :
  forall (self : HttpClient) (uuid : nat -> jsstring) (rurl : jsstring) (data : jsval)
         (f : cb_args -> result jsval) (exheaders exoptions options : jsobject)
         (type1 : jsstring) (err : jsval),
    hasOwnProperty exoptions (str "ntlm") = true ->
    buildRequest uuid rurl data exheaders exoptions = Ok options ->
    createType1Message options = Done type1 ->
    (exists name message,
        fetch (VStr rurl) (probe_init type1) = Failed name message
        /\ err = VError name message)
    \/ (exists probe,
          fetch (VStr rurl) (probe_init type1) = Done probe
          /\ headers_get (str "www-authenticate") (res_headers probe) = Some []
          /\ err = Error "Stage 1 NTLM handshake failed.")
    \/ (exists probe auth name message,
          fetch (VStr rurl) (probe_init type1) = Done probe
          /\ headers_get (str "www-authenticate") (res_headers probe) = Some auth
          /\ auth <> []
          /\ createType3Message auth options = Failed name message
          /\ err = VError name message) ->
    user_calls (run (request self uuid rurl data f exheaders exoptions))
    = [(err, None, VUndefined)]
    /\ sent (run (request self uuid rurl data f exheaders exoptions)) = []
    /\ fetched (run (request self uuid rurl data f exheaders exoptions))
       = [(VStr rurl, probe_init type1)].
Proof.
  intros self uuid rurl data f exheaders exoptions options type1 err Hntlm Hb Ht1 Hcase.
  assert (Hrun :
    exists v,
      run (request self uuid rurl data f exheaders exoptions)
      = {| called := true; cached := v; user_calls := [(err, None, VUndefined)];
           sent := []; fetched := [(VStr rurl, probe_init type1)]; ticks := 0 |}).
  { unfold request, ntlmHandshake. rewrite Hntlm, Hb. run_world.
    rewrite Ht1. run_world.
    change [(str "headers",
              VObj [(str "Connection", VStr (str "keep-alive"));
                    (str "Authorization", VStr type1)])]
      with (probe_init type1).
    destruct Hcase as [[name [message [Hf ->]]]
                      | [[probe [Hf [Hauth ->]]]
                        | [probe [auth [name [message [Hf [Hauth [Hne [Ht3 ->]]]]]]]]]].
    - rewrite Hf. run_world.
      unfold callback. cbn [truthy]. unfold once. run_world.
      destruct (f (VError name message, None, VUndefined)); eexists; reflexivity.
    - rewrite Hf. run_world. rewrite Hauth. run_world.
      unfold callback. cbn [truthy Error]. unfold once. run_world.
      destruct (f (Error "Stage 1 NTLM handshake failed.", None, VUndefined)); eexists; reflexivity.
    - destruct auth as [|c auth]; [contradiction Hne; reflexivity|].
      rewrite Hf. run_world. rewrite Hauth, Ht3. run_world.
      unfold callback. cbn [truthy]. unfold once. run_world.
      destruct (f (VError name message, None, VUndefined)); eexists; reflexivity. }
  destruct Hrun as [v ->]. repeat split.
Qed.

(** X19.  The answer on the plain path with the default executor.  The caller's
    callback is called once: with the reason when the exchange fails; else
    with a [null] error, the response as the executor handed it on, and the
    normalised text of the body, read with [res.text()] when the body does
    not come as a string; or with the reason when that reading fails. *)
Theorem request_default_answer :
  forall (uuid : nat -> jsstring) (rurl : jsstring) (data : jsval)
         (f : cb_args -> result jsval) (exheaders exoptions options : jsobject),
    hasOwnProperty exoptions (str "ntlm") = false ->
    buildRequest uuid rurl data exheaders exoptions = Ok options ->
    user_calls (run (request (HttpClient_new None) uuid rurl data f exheaders exoptions))
    = [ match fetch (get options (str "uri")) (delete (str "uri") options) with
        | Failed name message => (VError name message, None, VUndefined)
        | Done response =>
            let res := handed_on options (Date_now 0) (Date_now 1) response in
            if is_string (res_body response)
            then (VNull, Some res, handleResponse (res_body response))
            else match text response with
                 | Done t => (VNull, Some res, handleResponse (VStr t))
                 | Failed name message => (VError name message, Some res, VUndefined)
                 end
        end ].
Proof.
  intros uuid rurl data f exheaders exoptions options Hntlm Hb.
  unfold request. rewrite Hntlm, Hb. unfold run, bind at 1, lift.
  unfold call_request, HttpClient_new. cbn [_request].
  unfold requestWrapper. run_world.
  destruct (fetch (get options (str "uri")) (delete (str "uri") options))
    as [response|name message]; run_world.
  - cbv zeta.
    match goal with
    | |- context [callback (once f) (VNull, Some ?r, ?b) ?w1] =>
        destruct (is_string b) eqn:Hs;
        [ destruct (@callback_first_string f VNull (Some r) b w1 eq_refl eq_refl Hs) as [v Hw]
        | destruct (@callback_first_text f VNull r b w1 eq_refl eq_refl Hs) as [v Hw] ];
        destruct (callback (once f) (VNull, Some r, b) w1) as [[u|e] w2]
    end; cbn [snd] in Hw; subst w2; try rewrite callback_spent by reflexivity;
      cbn [user_calls app text]; reflexivity.
  - match goal with
    | |- context [callback (once f) ?a ?w1] =>
        destruct (@callback_first_error f (VError name message) None VUndefined w1 eq_refl eq_refl)
          as [v Hw]
    end.
    rewrite Hw. reflexivity.
Qed.

Lemma request_custom_world (calls : jsobject -> list cb_args) (returns : jsval)
    (uuid : nat -> jsstring) (rurl : jsstring) (data : jsval)
    (f : cb_args -> result jsval) (exheaders exoptions options : jsobject) :
  hasOwnProperty exoptions (str "ntlm") = false ->
  buildRequest uuid rurl data exheaders exoptions = Ok options ->
  run (request (HttpClient_new (Some (CustomHandler calls returns)))
         uuid rurl data f exheaders exoptions)
  = snd (run_calls (callback (once f)) (calls options)
           {| called := false; cached := VUndefined; user_calls := []; sent := [options];
              fetched := []; ticks := 0 |}).
Proof.
  intros Hntlm Hb. unfold request. rewrite Hntlm, Hb. unfold run, bind at 1, lift.
  unfold call_request, HttpClient_new. cbn [_request]. unfold bind, ret.
  cbn [initial_world called cached user_calls sent fetched ticks app].
  destruct (run_calls (callback (once f)) (calls options) _) as [[u|e] w]; reflexivity.
Qed.


(* ================================================================== *)
(** * [requestStream] *)
(* ================================================================== *)

Lemma run_calls_invoke (g : cb_args -> result jsval) (calls : list cb_args) (w : world) :
  snd (run_calls (invoke g) calls w)
  = {| called := called w; cached := cached w; user_calls := user_calls w ++ calls;
       sent := sent w; fetched := fetched w; ticks := ticks w |}.
Proof.
  revert w. induction calls as [|a rest IH]; intros w.
  - simpl. rewrite app_nil_r. destruct w; reflexivity.
  - cbn [run_calls]. unfold bind, detach. cbn [fst snd]. rewrite IH.
    unfold invoke. cbn [snd called cached user_calls sent fetched ticks].
    rewrite <- app_assoc. reflexivity.
Qed.

(** X22.  The stream path.  [requestStream] hands the request built to the
    executor as it is, once, and returns the stream at once; it does so
    whether or not the extra options have an [ntlm] key: there is no probe
    and no handshake on this path.  When the request cannot be built it
    throws, and nothing has happened. *)
Theorem requestStream_dispatch :
  forall (is_PassThrough : nat -> bool) (emit_error : jsval -> result jsval)
         (self : HttpClient) (uuid : nat -> jsstring) (stream : nat)
         (rurl : jsstring) (data : jsval) (exheaders exoptions : jsobject),
    match buildRequest uuid rurl data exheaders exoptions with
    | Ok options =>
        fst (requestStream is_PassThrough emit_error self uuid stream rurl data
               exheaders exoptions initial_world)
        = Ok (VStream stream)
        /\ sent (run (requestStream is_PassThrough emit_error self uuid stream rurl data
                        exheaders exoptions))
           = [options]
        /\ fetched (run (requestStream is_PassThrough emit_error self uuid stream rurl data
                           exheaders exoptions))
           = match _request self with
             | DefaultHandler => [(get options (str "uri"), delete (str "uri") options)]
             | CustomHandler _ _ => []
             end
    | Throw e =>
        requestStream is_PassThrough emit_error self uuid stream rurl data
          exheaders exoptions initial_world
        = (Throw e, initial_world)
    end.
Proof.
  intros is_PassThrough emit_error self uuid stream rurl data exheaders exoptions.
  unfold run, requestStream.
  destruct (buildRequest uuid rurl data exheaders exoptions) as [options|e]; [|reflexivity].
  unfold bind, lift, ret.
  match goal with
  | |- context [call_request self options ?cb initial_world] =>
      destruct (@call_request_wire self options cb initial_world (wire_invoke _)) as [H1 [H2 H3]];
      destruct (call_request self options cb initial_world) as [[v|e] w1]
  end; cbn [fst snd] in *; [|discriminate H1].
  repeat split; assumption.
Qed.

(** X23.  What reaches the stream with the default executor.  A failed exchange
    makes one [error] event with the reason; a completed one makes no
    event but the piping of the body, and that only when the body is a
    [PassThrough]: the status is not looked at, the body is not read and
    not normalised. *)
Theorem requestStream_default_events :
  forall (is_PassThrough : nat -> bool) (emit_error : jsval -> result jsval)
         (uuid : nat -> jsstring) (stream : nat)
         (rurl : jsstring) (data : jsval) (exheaders exoptions options : jsobject),
    buildRequest uuid rurl data exheaders exoptions = Ok options ->
    stream_events is_PassThrough emit_error
      (run (requestStream is_PassThrough emit_error (HttpClient_new None) uuid stream rurl data
              exheaders exoptions))
    = match fetch (get options (str "uri")) (delete (str "uri") options) with
      | Failed name message => [EmitError (VError name message)]
      | Done response =>
          if instanceof_PassThrough is_PassThrough (res_body response)
          then [PipeFrom (res_body response)]
          else []
      end.
Proof.
  intros is_PassThrough emit_error uuid stream rurl data exheaders exoptions options Hb.
  unfold requestStream. rewrite Hb. unfold run, bind at 1, lift.
  unfold call_request, HttpClient_new. cbn [_request].
  unfold requestWrapper. run_world.
  destruct (fetch (get options (str "uri")) (delete (str "uri") options))
    as [response|name message]; run_world.
  - unfold stream_events, stream_callback. cbn [truthy].
    destruct (instanceof_PassThrough is_PassThrough (res_body response)) eqn:E;
      cbn [snd fst user_calls app flat_map truthy]; rewrite E; reflexivity.
  - unfold stream_events, stream_callback. cbn [truthy].
    destruct (emit_error (VError name message));
      cbn [snd fst user_calls app flat_map truthy]; reflexivity.
Qed.

(** X24.  What reaches the stream with a replacement executor.  Every call the
    executor makes is passed on, in order: there is no one-shot guard on
    this path, and a call that carries neither an error nor a [PassThrough]
    body leaves no trace on the stream. *)
Theorem requestStream_custom_events :
  forall (is_PassThrough : nat -> bool) (emit_error : jsval -> result jsval)
         (calls : jsobject -> list cb_args) (returns : jsval)
         (uuid : nat -> jsstring) (stream : nat)
         (rurl : jsstring) (data : jsval) (exheaders exoptions options : jsobject),
    buildRequest uuid rurl data exheaders exoptions = Ok options ->
    let world_after :=
      run (requestStream is_PassThrough emit_error
             (HttpClient_new (Some (CustomHandler calls returns))) uuid stream rurl data
             exheaders exoptions) in
    user_calls world_after = calls options
    /\ stream_events is_PassThrough emit_error world_after
       = flat_map
           (fun a =>
              let '(err, _, body) := a in
              if truthy err then [EmitError err]
              else if instanceof_PassThrough is_PassThrough body then [PipeFrom body]
              else [])
           (calls options).
Proof.
  intros is_PassThrough emit_error calls returns uuid stream rurl data exheaders exoptions
         options Hb.
  assert (Hrun :
    run (requestStream is_PassThrough emit_error
           (HttpClient_new (Some (CustomHandler calls returns))) uuid stream rurl data
           exheaders exoptions)
    = {| called := false; cached := VUndefined; user_calls := calls options; sent := [options];
         fetched := []; ticks := 0 |}).
  { unfold requestStream. rewrite Hb. unfold run, bind at 1, lift.
    unfold call_request, HttpClient_new. cbn [_request]. unfold bind, ret.
    match goal with
    | |- context [run_calls (invoke ?g) (calls options) ?w1] =>
        pose proof (@run_calls_invoke g (calls options) w1) as Hw;
        destruct (run_calls (invoke g) (calls options) w1) as [[u|e] w2]
    end; cbn [snd] in *; subst w2; reflexivity. }
  cbv zeta. rewrite Hrun. split; [reflexivity|].
  unfold stream_events. cbn [user_calls].
  apply flat_map_ext. intros [[err response] body]. unfold stream_callback.
  destruct (truthy err); [reflexivity|].
  destruct (instanceof_PassThrough is_PassThrough body); reflexivity.
Qed.

Lemma run_calls_malformed (f : cb_args -> result jsval) (l : list cb_args) (w : world) :
  (forall error res body,
      In (error, res, body) l ->
      truthy error = false /\ is_string body = false /\ res = None) ->
  snd (run_calls (callback (once f)) l w) = w.
Proof.
  revert w. induction l as [|[[error res] body] rest IH]; intros w Hbad; [reflexivity|].
  destruct (Hbad error res body (or_introl eq_refl)) as [He [Hs ->]].
  cbn [run_calls]. unfold bind, detach. cbn [fst snd].
  unfold callback at 2. rewrite He, Hs. unfold throw. cbn [snd].
  apply IH. intros e r b Hin. apply Hbad. right. exact Hin.
Qed.

(** X21.  An answer the closure cannot use.  When a replacement executor calls
    back with no error, no body in text form and no response to read the
    text from, the closure fails on [res.text()] before it reaches the
    caller's callback: if every call of the executor is of that kind, the
    caller is never called back. *)
Theorem request_custom_malformed_answer :
  forall (calls : jsobject -> list cb_args) (returns : jsval)
         (uuid : nat -> jsstring) (rurl : jsstring) (data : jsval)
         (f : cb_args -> result jsval) (exheaders exoptions options : jsobject),
    hasOwnProperty exoptions (str "ntlm") = false ->
    buildRequest uuid rurl data exheaders exoptions = Ok options ->
    (forall error res body,
        In (error, res, body) (calls options) ->
        truthy error = false /\ is_string body = false /\ res = None) ->
    user_calls
      (run (request (HttpClient_new (Some (CustomHandler calls returns)))
              uuid rurl data f exheaders exoptions))
    = [].
Proof.
  intros calls returns uuid rurl data f exheaders exoptions options Hntlm Hb Hbad.
  rewrite (@request_custom_world calls returns uuid rurl data f _ _ _ Hntlm Hb).
  rewrite run_calls_malformed by exact Hbad. reflexivity.
Qed.

End Host.

(* ================================================================== *)
(** * The statements at sample inputs *)
(* ================================================================== *)





(** C10 at a forced multipart request without extra headers. *)
Lemma buildRequest_multipart_needs_content_type_witness :
  buildRequest (str "1.0.0") node_url_parse sample_uuid
    (str "http://example.com/soap") (VStr (str "<a/>")) [] [(str "forceMTOM", VBool true)]
  = Throw (TypeError "Cannot read properties of null (reading 'indexOf')").
Proof.
  exact (@buildRequest_multipart_needs_content_type (str "1.0.0") node_url_parse sample_uuid
           (str "http://example.com/soap") (VStr (str "<a/>")) []
           [(str "forceMTOM", VBool true)] eq_refl eq_refl).
Defined.



(** C6, the claim as first stated, fails.  The repetition before the close
    tag is greedy, so a close tag in the trailing text moves the end of the
    result: the body comes back whole, not cut after the first close tag.
    And a declaration with a [?] inside is not taken as one: the result
    starts at the open tag. *)
Lemma handleResponse_extracts_envelope_counterexample :
  (handleResponse sample_toUpperCase
     (VStr (str "<soap:Envelope>a</soap:Envelope>junk</soap:Envelope>"))
   = VStr (str "<soap:Envelope>a</soap:Envelope>junk</soap:Envelope>")
   /\ handleResponse sample_toUpperCase
        (VStr (str "<soap:Envelope>a</soap:Envelope>junk</soap:Envelope>"))
      <> VStr (str "<soap:Envelope>a</soap:Envelope>"))
  /\ (handleResponse sample_toUpperCase
        (VStr (str "<?xml note='why?'?><soap:Envelope>a</soap:Envelope>"))
      = VStr (str "<soap:Envelope>a</soap:Envelope>")
      /\ handleResponse sample_toUpperCase
           (VStr (str "<?xml note='why?'?><soap:Envelope>a</soap:Envelope>"))
         <> VStr (str "<?xml note='why?'?><soap:Envelope>a</soap:Envelope>")).
Proof.
  repeat split; try (vm_compute; reflexivity); vm_compute; discriminate.
Qed.

(** C6 at the body of the example in the specification. *)
Lemma handleResponse_extracts_envelope_witness :
  handleResponse sample_toUpperCase (VStr sample_body) = VStr sample_body_normalized.
Proof.
  apply (@handleResponse_extracts_envelope sample_toUpperCase sample_body
           (str "junk")
           (Some (str "xml version=" ++ dq ++ str "1.0" ++ dq, []))
           (str "soap") (str "Envelope") (str ">...") (str "soap") (str "Envelope")
           (str "trailing"));
    first [vm_compute; reflexivity | split; reflexivity].
Defined.

(** Tag names are matched without regard to case, and a comment block
    before the envelope is not searched for tags. *)
Example handleResponse_case_and_comment :
  handleResponse sample_toUpperCase
    (VStr (str "<!-- <x:Envelope> -->junk<soap:Envelope>x</SOAP:ENVELOPE>tail"))
  = VStr (str "<soap:Envelope>x</SOAP:ENVELOPE>").
Proof. vm_compute. reflexivity. Qed.




(** C5 at a response with status 500. *)
Lemma requestWrapper_status_is_not_an_error_witness :
  exists res,
    statusCode res = Some 500%Z
    /\ user_calls
         (run (requestWrapper sample_fetch_500 sample_clock
                 [(str "uri", VStr (str "http://example.com/soap")); (str "method", VStr (str "POST"))]
                 (invoke sample_callback)))
       = [(VNull, Some res, VStream 7)].
Proof.
  destruct (@requestWrapper_status_is_not_an_error sample_fetch_500 sample_clock
              [(str "uri", VStr (str "http://example.com/soap")); (str "method", VStr (str "POST"))]
              sample_callback (sample_response 500 "Internal Server Error" []) eq_refl)
    as [res [Hcode [_ [Hok _]]]].
  exists res. split; [exact Hcode|]. apply (Hok VUndefined). reflexivity.
Defined.

(** C4 at a server that answers the probe without a challenge. *)
Lemma request_ntlm_without_challenge_witness :
  user_calls
    (run (request (str "1.0.0") node_url_parse sample_toUpperCase sample_fetch_no_challenge
            sample_createType1Message sample_createType3Message sample_clock
            (HttpClient_new None) sample_uuid (str "http://example.com/soap")
            (VStr (str "<a/>")) sample_callback []
            [(str "ntlm", VBool true); (str "domain", VStr (str "CORP"))]))
  = [(Error "Stage 1 NTLM handshake failed.", None, VUndefined)]
  /\ sent
       (run (request (str "1.0.0") node_url_parse sample_toUpperCase sample_fetch_no_challenge
               sample_createType1Message sample_createType3Message sample_clock
               (HttpClient_new None) sample_uuid (str "http://example.com/soap")
               (VStr (str "<a/>")) sample_callback []
               [(str "ntlm", VBool true); (str "domain", VStr (str "CORP"))]))
     = []
  /\ fetched
       (run (request (str "1.0.0") node_url_parse sample_toUpperCase sample_fetch_no_challenge
               sample_createType1Message sample_createType3Message sample_clock
               (HttpClient_new None) sample_uuid (str "http://example.com/soap")
               (VStr (str "<a/>")) sample_callback []
               [(str "ntlm", VBool true); (str "domain", VStr (str "CORP"))]))
     = [(VStr (str "http://example.com/soap"), probe_init (str "NTLM TlRMTVNTUAABAAAA"))].
Proof.
  eapply (@request_ntlm_without_challenge (str "1.0.0") node_url_parse sample_toUpperCase
            sample_fetch_no_challenge sample_createType1Message sample_createType3Message
            sample_clock).
  - reflexivity.
  - vm_compute. reflexivity.
  - reflexivity.
  - reflexivity.
  - reflexivity.
Defined.

(** C1, the claim as first stated, fails: a call whose request cannot be
    built throws before anything is sent, and the callback is never called;
    nor is it when a replacement executor never calls back. *)
Lemma request_calls_back_once_counterexample :
  user_calls
    (run (request (str "1.0.0") node_url_parse sample_toUpperCase sample_fetch_500
            sample_createType1Message sample_createType3Message sample_clock
            (HttpClient_new None) sample_uuid (str "http://example.com/soap")
            (VStr (str "<a/>")) sample_callback [] [(str "forceMTOM", VBool true)]))
  = []
  /\ user_calls
       (run (request (str "1.0.0") node_url_parse sample_toUpperCase sample_fetch_500
               sample_createType1Message sample_createType3Message sample_clock
               (HttpClient_new (Some silent_handler)) sample_uuid (str "http://example.com/soap")
               (VStr (str "<a/>")) sample_callback [] []))
     = [].
Proof.
  split; vm_compute; reflexivity.
Qed.

(** C1 at a call answered with status 500 by the default executor. *)
Lemma request_calls_back_once_witness :
  List.length
    (user_calls
       (run (request (str "1.0.0") node_url_parse sample_toUpperCase sample_fetch_500
               sample_createType1Message sample_createType3Message sample_clock
               (HttpClient_new None) sample_uuid (str "http://example.com/soap")
               (VStr (str "<a/>")) sample_callback [] [])))
  = 1%nat.
Proof.
  eapply (proj2 (@request_calls_back_once (str "1.0.0") node_url_parse sample_toUpperCase
                   sample_fetch_500 sample_createType1Message sample_createType3Message
                   sample_clock (HttpClient_new None) sample_uuid (str "http://example.com/soap")
                   (VStr (str "<a/>")) sample_callback [] [])).
  - vm_compute. reflexivity.
  - intros H. vm_compute in H. discriminate H.
  - exact I.
Defined.

(* ================================================================== *)
(** * Further statements at sample inputs *)
(* ================================================================== *)

(** The request line at an empty payload: a [GET]. *)
Lemma buildRequest_request_line_witness :
  exists options,
    buildRequest (str "1.0.0") node_url_parse sample_uuid
      (str "http://example.com/soap") (VStr []) [] [] = Ok options
    /\ get options (str "uri") = VStr (str "http://example.com/soap")
    /\ get options (str "method") = VStr (str "GET")
    /\ get options (str "redirect") = VStr (str "follow").
Proof.
  eexists. split; [vm_compute; reflexivity|].
  match goal with
  | |- get ?o _ = _ /\ _ =>
      destruct (@buildRequest_request_line (str "1.0.0") node_url_parse sample_uuid
                  (str "http://example.com/soap") (VStr []) [] [] o eq_refl) as [H1 [H2 H3]]
  end.
  split; [apply H1; reflexivity | split; [apply H2; reflexivity | apply H3; reflexivity]].
Defined.

(** The defaults at a request kept alive. *)
Lemma buildRequest_default_headers_witness :
  exists options,
    buildRequest (str "1.0.0") node_url_parse sample_uuid
      (str "http://example.com/soap") (VStr (str "<a/>"))
      [(str "accept", VStr (str "text/xml"))] [(str "forever", VBool true)] = Ok options
    /\ request_header options (str "Connection") = Some (str "keep-alive").
Proof.
  eexists. split; [vm_compute; reflexivity|].
  match goal with
  | |- request_header ?o _ = _ =>
      apply (@buildRequest_default_headers (str "1.0.0") node_url_parse sample_uuid
               (str "http://example.com/soap") (VStr (str "<a/>"))
               [(str "accept", VStr (str "text/xml"))] [(str "forever", VBool true)] o
               (str "Connection") (str "keep-alive") eq_refl)
  end.
  - right. right. right. right. left. reflexivity.
  - reflexivity.
Defined.

(** The last of two entries that differ in case only. *)
Lemma buildRequest_extra_header_wins_witness :
  exists options,
    buildRequest (str "1.0.0") node_url_parse sample_uuid
      (str "http://example.com/soap") (VStr (str "<a/>"))
      [(str "SOAPAction", VStr (str "urn:a")); (str "soapaction", VStr (str "urn:b"))] []
    = Ok options
    /\ request_header options (str "SOAPAction") = Some (str "urn:b").
Proof.
  eexists. split; [vm_compute; reflexivity|].
  match goal with
  | |- request_header ?o _ = _ =>
      apply (@buildRequest_extra_header_wins (str "1.0.0") node_url_parse sample_uuid
               (str "http://example.com/soap") (VStr (str "<a/>"))
               [(str "SOAPAction", VStr (str "urn:a")); (str "soapaction", VStr (str "urn:b"))] []
               o [(str "SOAPAction", VStr (str "urn:a"))] []
               (str "soapaction") (str "SOAPAction") (VStr (str "urn:b"))
               eq_refl eq_refl eq_refl eq_refl (or_introl eq_refl))
  end.
Defined.


(** A time limit passes through; the attachments do not. *)
Lemma buildRequest_options_pass_through_witness :
  exists options,
    buildRequest (str "1.0.0") node_url_parse sample_uuid
      (str "http://example.com/soap") (VStr (str "<a/>")) []
      [(str "timeout", VNum 5000); (str "attachments", VArr [])] = Ok options
    /\ get options (str "timeout") = VNum 5000
    /\ get options (str "attachments") = VUndefined.
Proof.
  eexists. split; [vm_compute; reflexivity|].
  match goal with
  | |- get ?o _ = _ /\ _ =>
      destruct (@buildRequest_options_pass_through (str "1.0.0") node_url_parse sample_uuid
                  (str "http://example.com/soap") (VStr (str "<a/>")) []
                  [(str "timeout", VNum 5000); (str "attachments", VArr [])] o eq_refl)
        as [H1 H2]
  end.
  split; [|exact H2].
  apply (H1 (str "timeout")); [discriminate | discriminate | reflexivity].
Defined.


(** A body with a comment closer and no opener. *)
Lemma without_comment_needs_both_markers_witness :
  without_comment sample_toUpperCase (str "a --> b") = str "a --> b".
Proof.
  apply (@without_comment_needs_both_markers sample_toUpperCase (str "a --> b")).
  left. reflexivity.
Defined.

(** The first of two comment blocks goes, the second stays. *)
Lemma without_comment_cuts_first_block_witness :
  without_comment sample_toUpperCase (str "<x><!-- note --><!-- kept -->tail")
  = str "<x><!-- kept -->tail".
Proof.
  apply (@without_comment_cuts_first_block sample_toUpperCase
           (str "<x>") (str " note ") (str "<!-- kept -->tail"));
    reflexivity.
Defined.

(** The default executor when the network is down. *)
Lemma requestWrapper_transport_failure_witness :
  user_calls
    (run (requestWrapper sample_fetch_down sample_clock
            [(str "uri", VStr (str "http://example.com/soap")); (str "method", VStr (str "GET"))]
            (invoke sample_callback)))
  = [(VError (str "FetchError") (str "connect ECONNREFUSED"), None, VUndefined)]
  /\ fst (requestWrapper sample_fetch_down sample_clock
            [(str "uri", VStr (str "http://example.com/soap")); (str "method", VStr (str "GET"))]
            (invoke sample_callback) initial_world)
     = Ok (reported_headers
             [(str "uri", VStr (str "http://example.com/soap")); (str "method", VStr (str "GET"))]).
Proof.
  apply (@requestWrapper_transport_failure sample_fetch_down sample_clock
           [(str "uri", VStr (str "http://example.com/soap")); (str "method", VStr (str "GET"))]
           sample_callback (str "FetchError") (str "connect ECONNREFUSED")).
  reflexivity.
Defined.

(** A multipart request without a content type: [request] throws, and the
    world is as it was. *)
Lemma request_construction_failure_witness :
  request (str "1.0.0") node_url_parse sample_toUpperCase sample_fetch_500
    sample_createType1Message sample_createType3Message sample_clock
    (HttpClient_new None) sample_uuid (str "http://example.com/soap")
    (VStr (str "<a/>")) sample_callback [] [(str "forceMTOM", VBool true)] initial_world
  = (Throw (TypeError "Cannot read properties of null (reading 'indexOf')"), initial_world).
Proof.
  apply (@request_construction_failure (str "1.0.0") node_url_parse sample_toUpperCase
           sample_fetch_500 sample_createType1Message sample_createType3Message sample_clock).
  left. reflexivity.
Defined.

(** The plain path with the default executor. *)
Lemma request_dispatch_witness :
  exists options,
    buildRequest (str "1.0.0") node_url_parse sample_uuid
      (str "http://example.com/soap") (VStr (str "<a/>")) [] [] = Ok options
    /\ sent (run (request (str "1.0.0") node_url_parse sample_toUpperCase sample_fetch_500
                    sample_createType1Message sample_createType3Message sample_clock
                    (HttpClient_new None) sample_uuid (str "http://example.com/soap")
                    (VStr (str "<a/>")) sample_callback [] []))
       = [options]
    /\ fetched (run (request (str "1.0.0") node_url_parse sample_toUpperCase sample_fetch_500
                       sample_createType1Message sample_createType3Message sample_clock
                       (HttpClient_new None) sample_uuid (str "http://example.com/soap")
                       (VStr (str "<a/>")) sample_callback [] []))
       = [(VStr (str "http://example.com/soap"), delete (str "uri") options)].
Proof.
  eexists. split; [vm_compute; reflexivity|].
  match goal with
  | |- _ = [?o] /\ _ =>
      destruct (@request_dispatch (str "1.0.0") node_url_parse sample_toUpperCase sample_fetch_500
                  sample_createType1Message sample_createType3Message sample_clock
                  (HttpClient_new None) sample_uuid (str "http://example.com/soap")
                  (VStr (str "<a/>")) sample_callback [] [] o eq_refl eq_refl)
        as [H1 [H2 _]]
  end.
  split; [exact H1 | exact H2].
Defined.


(** The NTLM path when the network is down. *)
Lemma request_ntlm_handshake_failure_witness :
  user_calls
    (run (request (str "1.0.0") node_url_parse sample_toUpperCase sample_fetch_down
            sample_createType1Message sample_createType3Message sample_clock
            (HttpClient_new None) sample_uuid (str "http://example.com/soap")
            (VStr (str "<a/>")) sample_callback [] [(str "ntlm", VBool true)]))
  = [(VError (str "FetchError") (str "connect ECONNREFUSED"), None, VUndefined)]
  /\ sent
       (run (request (str "1.0.0") node_url_parse sample_toUpperCase sample_fetch_down
               sample_createType1Message sample_createType3Message sample_clock
               (HttpClient_new None) sample_uuid (str "http://example.com/soap")
               (VStr (str "<a/>")) sample_callback [] [(str "ntlm", VBool true)]))
     = []
  /\ fetched
       (run (request (str "1.0.0") node_url_parse sample_toUpperCase sample_fetch_down
               sample_createType1Message sample_createType3Message sample_clock
               (HttpClient_new None) sample_uuid (str "http://example.com/soap")
               (VStr (str "<a/>")) sample_callback [] [(str "ntlm", VBool true)]))
     = [(VStr (str "http://example.com/soap"), probe_init (str "NTLM TlRMTVNTUAABAAAA"))].
Proof.
  eapply (@request_ntlm_handshake_failure (str "1.0.0") node_url_parse sample_toUpperCase
            sample_fetch_down sample_createType1Message sample_createType3Message sample_clock).
  - reflexivity.
  - vm_compute. reflexivity.
  - reflexivity.
  - left. exists (str "FetchError"), (str "connect ECONNREFUSED"). split; reflexivity.
Defined.

(** The plain path at a response with status 500: the body is read and
    normalised, the status makes no error. *)
Lemma request_default_answer_witness :
  exists res,
    user_calls
      (run (request (str "1.0.0") node_url_parse sample_toUpperCase sample_fetch_500
              sample_createType1Message sample_createType3Message sample_clock
              (HttpClient_new None) sample_uuid (str "http://example.com/soap")
              (VStr (str "<a/>")) sample_callback [] []))
    = [(VNull, Some res, VStr (str "<soap:Envelope><soap:Body/></soap:Envelope>"))]
    /\ statusCode res = Some 500%Z
    /\ elapsedTime res = Some 25%Z.
Proof.
  eexists. split.
  - rewrite (@request_default_answer (str "1.0.0") node_url_parse sample_toUpperCase
               sample_fetch_500 sample_createType1Message sample_createType3Message sample_clock
               sample_uuid (str "http://example.com/soap") (VStr (str "<a/>")) sample_callback
               [] [] _ eq_refl eq_refl).
    vm_compute. reflexivity.
  - split; reflexivity.
Defined.


(** The stream path at a response whose body is a [PassThrough]. *)
Lemma requestStream_default_events_witness :
  stream_events sample_is_PassThrough sample_emit_error
    (run (requestStream (str "1.0.0") node_url_parse sample_fetch_500 sample_clock
            sample_is_PassThrough sample_emit_error (HttpClient_new None) sample_uuid 9
            (str "http://example.com/soap") (VStr (str "<a/>")) []
            [(str "ntlm", VBool true)]))
  = [PipeFrom (VStream 7)].
Proof.
  rewrite (@requestStream_default_events (str "1.0.0") node_url_parse sample_fetch_500
             sample_clock sample_is_PassThrough sample_emit_error sample_uuid 9
             (str "http://example.com/soap") (VStr (str "<a/>")) []
             [(str "ntlm", VBool true)] _ eq_refl).
  reflexivity.
Defined.

(** The stream path with a replacement executor that reports two errors:
    both reach the stream. *)
Lemma requestStream_custom_events_witness :
  stream_events sample_is_PassThrough sample_emit_error
    (run (requestStream (str "1.0.0") node_url_parse sample_fetch_500 sample_clock
            sample_is_PassThrough sample_emit_error
            (HttpClient_new
               (Some (CustomHandler
                        (fun _ => [(Error "first", None, VUndefined);
                                   (Error "second", None, VUndefined)])
                        VUndefined)))
            sample_uuid 9 (str "http://example.com/soap") (VStr (str "<a/>")) [] []))
  = [EmitError (Error "first"); EmitError (Error "second")].
Proof.
  destruct (@requestStream_custom_events (str "1.0.0") node_url_parse sample_fetch_500
              sample_clock sample_is_PassThrough sample_emit_error
              (fun _ => [(Error "first", None, VUndefined);
                         (Error "second", None, VUndefined)])
              VUndefined sample_uuid 9 (str "http://example.com/soap") (VStr (str "<a/>"))
              [] [] _ eq_refl)
    as [_ Hevents].
  rewrite Hevents. reflexivity.
Defined.

(** An executor that calls back with nothing at all. *)
Lemma request_custom_malformed_answer_witness :
  user_calls
    (run (request (str "1.0.0") node_url_parse sample_toUpperCase sample_fetch_500
            sample_createType1Message sample_createType3Message sample_clock
            (HttpClient_new
               (Some (CustomHandler (fun _ => [(VUndefined, None, VUndefined)]) VUndefined)))
            sample_uuid (str "http://example.com/soap")
            (VStr (str "<a/>")) sample_callback [] []))
  = [].
Proof.
  eapply (@request_custom_malformed_answer (str "1.0.0") node_url_parse sample_toUpperCase
            sample_fetch_500 sample_createType1Message sample_createType3Message sample_clock
            (fun _ => [(VUndefined, None, VUndefined)]) VUndefined).
  - reflexivity.
  - vm_compute. reflexivity.
  - intros error res body [H|[]]. injection H as <- <- <-. repeat split.
Defined.

(* ================================================================== *)
(** * What [buildRequest] reads of the URL *)
(* ================================================================== *)

(** X8.  Of the parsed URL only the host name and the port reach the request:
    the scheme, the path, the query and the fragment are read into
    [secure] and [path] and not used.  Two readings of the URL that agree
    on host name and port give the same request, or the same error. *)
Theorem buildRequest_reads_host_and_port_only :
  forall (VERSION : jsstring) (parse parse' : jsstring -> UrlObject)
         (uuid : nat -> jsstring) (rurl : jsstring) (data : jsval)
         (exheaders exoptions : jsobject),
    hostname (parse rurl) = hostname (parse' rurl) ->
    port (parse rurl) = port (parse' rurl) ->
    buildRequest VERSION parse uuid rurl data exheaders exoptions
    = buildRequest VERSION parse' uuid rurl data exheaders exoptions.
Proof.
  intros VERSION parse parse' uuid rurl data exheaders exoptions Hhost Hport.
  unfold buildRequest, base_headers. rewrite Hhost, Hport. reflexivity.
Qed.

(** The reference reading of a URL, and a reading that keeps the host name
    and the port only. *)
Lemma buildRequest_reads_host_and_port_only_witness :
  buildRequest (str "1.0.0") node_url_parse sample_uuid
    (str "https://example.com:8443/soap?wsdl#top") (VStr (str "<a/>")) [] []
  = buildRequest (str "1.0.0")
      (fun rurl =>
         {| protocol := None;
            hostname := hostname (node_url_parse rurl);
            port := port (node_url_parse rurl);
            pathname := None;
            search := None;
            hash := None |})
      sample_uuid (str "https://example.com:8443/soap?wsdl#top") (VStr (str "<a/>")) [] [].
Proof.
  apply (@buildRequest_reads_host_and_port_only (str "1.0.0") node_url_parse
           (fun rurl =>
              {| protocol := None;
                 hostname := hostname (node_url_parse rurl);
                 port := port (node_url_parse rurl);
                 pathname := None;
                 search := None;
                 hash := None |})
           sample_uuid (str "https://example.com:8443/soap?wsdl#top") (VStr (str "<a/>")) [] []);
    reflexivity.
Defined.
